(** * Blog dashboard: slug generator, post queries, comments and auth handlers

    A shallow embedding of [src/lib/db.js], [src/lib/validation.js], the
    login and register routes and the post routes, with the properties the
    specification states about them.

    Conventions of the embedding.
    - A JavaScript string is a [string]; its characters are the code units
      U+0000..U+00FF.
    - A field of a request body or of an options object is a string or is
      absent: an [option], where [None] stands for [undefined].  Where the
      source only tests the value for truthiness, [null] behaves the same.
    - Numbers are integers: [counter] is a [nat], [page] and [pageSize]
      are in [Z].
    - The relational store is an external collaborator.  A table is the list
      of its rows (the [posts] relation of the write handlers is keyed by
      its primary key); every call to the store gets a reply
      [{data, error}], may report an error, and (where the source guards it
      with [try]) may throw.  Which calls fail is chosen by the environment
      and is an explicit argument of each operation.
    - A loop without a bound takes a [fuel] argument and returns an
      [option]; that enough fuel always exists is proved below.
    - The client that [createAdminClient()] returns is the handle on the
      store; how it is built is not part of the embedding. *)

From Stdlib Require Import ZArith Lia Ascii.
From stdpp Require Import base option list strings pretty gmap sorting.


(* ===================================================================== *)
(** ** JavaScript string primitives *)
(* ===================================================================== *)

Module Js.

Definition code (c : ascii) : N := N_of_ascii c.

Definition between (lo hi : N) (c : ascii) : bool :=
  ((lo <=? code c) && (code c <=? hi))%N.

(** [c] is matched by the character class [[a-z0-9]]. *)
Definition is_slug_char (c : ascii) : bool :=
  between 97 122 c || between 48 57 c.

(** [String.prototype.toLowerCase] on one code unit: [A-Z] and the
    upper-case letters of Latin-1 (U+00C0..U+00DE except U+00D7) move
    32 places up, every other code unit below U+0100 is kept. *)
Definition lower_char (c : ascii) : ascii :=
  if between 65 90 c then ascii_of_N (code c + 32)
  else if between 192 222 c && negb (code c =? 215)%N
       then ascii_of_N (code c + 32)
  else c.

Fixpoint toLowerCase (s : string) : string :=
  match s with
  | "" => ""
  | String c s' => String (lower_char c) (toLowerCase s')
  end.

(** [\s] of a regular expression, and the characters [trim] removes. *)
Definition is_space (c : ascii) : bool :=
  between 9 13 c || (code c =? 32)%N || (code c =? 160)%N.

Fixpoint trimStart (s : string) : string :=
  match s with
  | "" => ""
  | String c s' => if is_space c then trimStart s' else s
  end.

Fixpoint trimEnd (s : string) : string :=
  match s with
  | "" => ""
  | String c s' =>
      match trimEnd s' with
      | "" => if is_space c then "" else String c ""
      | r => String c r
      end
  end.

Definition trim (s : string) : string := trimEnd (trimStart s).

(** Truthiness of a value that is a string or absent: [undefined],
    [null] and the empty string are falsy. *)
Definition truthy (v : option string) : bool :=
  match v with
  | Some s => negb (String.eqb s "")
  | None => false
  end.

(** [a || b] on such values. *)
Definition or_else (v : option string) (d : string) : string :=
  match v with
  | Some s => if String.eqb s "" then d else s
  | None => d
  end.

(** [Array.prototype.includes] on an array of strings. *)
Definition includes (l : list string) (s : string) : bool :=
  existsb (String.eqb s) l.

End Js.

(* ===================================================================== *)
(** ** Replies of the store *)
(* ===================================================================== *)

Module Store.

(** What went wrong with a call.  [NotOneRow] is the error of [.single()]
    when the result set has no row or more than one; [QueryFailed] is
    every failure of communication or of the store itself. *)
Inductive StoreError := NotOneRow | QueryFailed.

Record Reply (A : Type) := mkReply {
  data : option A;
  error : option StoreError
}.
Arguments mkReply {A} _ _.
Arguments data {A} _.
Arguments error {A} _.

Definition ok {A} (x : A) : Reply A := mkReply (Some x) None.
Definition failed {A} (e : StoreError) : Reply A := mkReply None (Some e).

(** [.single()]: the result set must hold exactly one row. *)
Definition single {A} (rows : list A) : Reply A :=
  match rows with
  | [r] => ok r
  | _ => failed NotOneRow
  end.

(** How the environment treats one call: it is answered, it is answered
    with an error, or the client throws. *)
Inductive Fault := Answered | Errored | Thrown.

End Store.

(* ===================================================================== *)
(** ** [generateSlug] (src/lib/db.js) *)
(* ===================================================================== *)

Module Slug.
Import Store.

(** The columns of a row that [generateSlug] reads. *)
Record Row := mkRow { id : string; slug : string }.

Global Instance Row_eq_dec : EqDecision Row.
Proof. solve_decision. Defined.

(** The store as [generateSlug] sees it: named tables, and for each probe
    (numbered by the value of [counter] when it is made) whether the query
    fails. *)
Record Db := mkDb {
  tables : gmap string (list Row);
  probe_fails : nat → bool
}.

(** [title.toLowerCase().replace(/[^a-z0-9]+/g, '-')]: scanning left to
    right, every maximal run of characters outside [[a-z0-9]] is replaced
    by one hyphen.  [in_run] tells that the run was already replaced. *)
Fixpoint replace_runs (in_run : bool) (s : string) : string :=
  match s with
  | "" => ""
  | String c s' =>
      if Js.is_slug_char c then String c (replace_runs false s')
      else if in_run then replace_runs true s'
      else String "-" (replace_runs true s')
  end.

Definition is_hyphen (c : ascii) : bool := (Js.code c =? 45)%N.

(** [.replace(/^-+|-+$/g, '')]: the hyphens at the start and the hyphens
    at the end are removed. *)
Fixpoint strip_leading (s : string) : string :=
  match s with
  | "" => ""
  | String c s' => if is_hyphen c then strip_leading s' else s
  end.

Fixpoint strip_trailing (s : string) : string :=
  match s with
  | "" => ""
  | String c s' =>
      match strip_trailing s' with
      | "" => if is_hyphen c then "" else String c ""
      | r => String c r
      end
  end.

Definition baseSlug (title : string) : string :=
  strip_trailing (strip_leading (replace_runs false (Js.toLowerCase title))).

(** The rows the probe query selects:
    [.eq('slug', slug)] and, when [excludeId] is truthy,
    [.neq('id', excludeId)]. *)
Definition selected (excludeId : option string) (s : string) (r : Row) : bool :=
  String.eqb (slug r) s &&
  (if Js.truthy excludeId
   then negb (String.eqb (id r) (default "" excludeId))
   else true).

(** [await query.single()] for one candidate.  A query that cannot be
    sent, or that names a relation the store does not have, is answered
    with an error. *)
Definition probe (db : Db) (table : string) (excludeId : option string)
    (counter : nat) (s : string) : Reply Row :=
  if probe_fails db counter then failed QueryFailed
  else match tables db !! table with
       | None => failed QueryFailed
       | Some rows => single (filter (λ r, selected excludeId s r = true) rows)
       end.

(** [error || !data] *)
Definition is_free (r : Reply Row) : bool :=
  match error r, data r with
  | Some _, _ => true
  | None, None => true
  | None, Some _ => false
  end.

(** The [while (!isUnique)] loop: [s] and [counter] are the variables
    [slug] and [counter] of the source; [fuel] bounds the number of
    probes. *)
Fixpoint probe_loop (fuel : nat) (db : Db) (table : string)
    (excludeId : option string) (base s : string) (counter : nat)
    : option string :=
  match fuel with
  | O => None
  | S fuel' =>
      if is_free (probe db table excludeId counter s) then Some s
      else probe_loop fuel' db table excludeId base
             (base +:+ "-" +:+ pretty counter) (S counter)
  end.

Definition generateSlug (fuel : nat) (db : Db) (title table : string)
    (excludeId : option string) : option string :=
  probe_loop fuel db table excludeId (baseSlug title) (baseSlug title) 1.

(** The [k]-th candidate: the base, then the base with suffix [-k]. *)
Definition candidate (base : string) (k : nat) : string :=
  match k with
  | O => base
  | S _ => base +:+ "-" +:+ pretty k
  end.

(** The probe of the [k]-th candidate finds it taken. *)
Definition taken (db : Db) (table : string) (excludeId : option string)
    (base : string) (k : nat) : Prop :=
  is_free (probe db table excludeId (S k) (candidate base k)) = false.

(** Every probe is answered. *)
Definition answered (db : Db) : Prop := ∀ n, probe_fails db n = false.

(** A store holding one table, whose probes are all answered. *)
Definition healthy (table : string) (rows : list Row) : Db :=
  mkDb {[ table := rows ]} (λ _, false).

(** The store after a row is added to [table]. *)
Definition add_row (db : Db) (table : string) (r : Row) : Db :=
  mkDb (<[ table := default [] (tables db !! table) ++ [r] ]> (tables db))
       (probe_fails db).

(** The rows of [table] that bear [s], the excluded row apart. *)
Definition bearers (db : Db) (table : string) (excludeId : option string)
    (s : string) : list Row :=
  filter (λ r, selected excludeId s r = true) (default [] (tables db !! table)).

(** No slug is borne by two rows of [table], the excluded row apart. *)
Definition slugs_unique (db : Db) (table : string)
    (excludeId : option string) : Prop :=
  ∀ s, length (bearers db table excludeId s) ≤ 1.

End Slug.

(* ===================================================================== *)
(** ** src/lib/validation.js *)
(* ===================================================================== *)

Module Validation.

(** [{ valid: true }] or [{ valid: false, error }] *)
Inductive Result := Valid | Invalid (error : string).

(** A character of the class [[^\s@]]. *)
Definition email_char (c : ascii) : bool :=
  negb (Js.is_space c) && negb (Js.code c =? 64)%N.

Fixpoint all_email_chars (s : string) : bool :=
  match s with
  | "" => true
  | String c s' => email_char c && all_email_chars s'
  end.

(** The string up to its first [@], and the string after it. *)
Fixpoint split_at_sign (s : string) : option (string * string) :=
  match s with
  | "" => None
  | String c s' =>
      if (Js.code c =? 64)%N then Some ("", s')
      else match split_at_sign s' with
           | Some (l, r) => Some (String c l, r)
           | None => None
           end
  end.

(** Some character of [s] other than its last one is a dot. *)
Fixpoint dot_before_last (s : string) : bool :=
  match s with
  | String c (String _ _ as s') => (Js.code c =? 46)%N || dot_before_last s'
  | _ => false
  end.

(** [/^[^\s@]+@[^\s@]+\.[^\s@]+$/.test(email)]: a non-empty local part,
    one [@], and a domain without spaces or [@] that has a dot with a
    character on either side. *)
Definition isValidEmail (email : string) : bool :=
  match split_at_sign email with
  | Some (l, d) =>
      negb (String.eqb l "") && all_email_chars l && all_email_chars d &&
      match d with
      | String _ d' => dot_before_last d'
      | "" => false
      end
  | None => false
  end.

Definition isValidPassword (password : option string) : Result :=
  match password with
  | Some p =>
      if String.eqb p "" || (String.length p <? 6)%nat
      then Invalid "Password must be at least 6 characters long"
      else Valid
  | None => Invalid "Password must be at least 6 characters long"
  end.

Record RegistrationData := mkRegistration {
  reg_name : option string;
  reg_email : option string;
  reg_password : option string;
  reg_role : option string
}.

Definition validRoles : list string := ["admin"; "author"; "reader"].

(** [!s || s.trim().length === 0] *)
Definition blank (v : option string) : bool :=
  negb (Js.truthy v) || (String.length (Js.trim (default "" v)) =? 0)%nat.

Definition validateRegistration (d : RegistrationData) : Result :=
  if blank (reg_name d) then Invalid "Name is required"
  else if (100 <? String.length (default "" (reg_name d)))%nat
  then Invalid "Name must be less than 100 characters"
  else if negb (Js.truthy (reg_email d)) ||
          negb (isValidEmail (default "" (reg_email d)))
  then Invalid "Valid email is required"
  else match isValidPassword (reg_password d) with
       | Invalid e => Invalid e
       | Valid =>
           if Js.truthy (reg_role d) &&
              negb (Js.includes validRoles (default "" (reg_role d)))
           then Invalid "Invalid role specified"
           else Valid
       end.

Record LoginData := mkLogin {
  login_email : option string;
  login_password : option string
}.

Definition validateLogin (d : LoginData) : Result :=
  if negb (Js.truthy (login_email d)) ||
     negb (isValidEmail (default "" (login_email d)))
  then Invalid "Valid email is required"
  else if negb (Js.truthy (login_password d)) ||
          (String.length (default "" (login_password d)) =? 0)%nat
  then Invalid "Password is required"
  else Valid.

Record PostData := mkPostData {
  pd_title : option string;
  pd_content : option string;
  pd_excerpt : option string;
  pd_featured_image : option string;
  pd_category_id : option string;
  pd_status : option string;
  pd_tags : option (list string)
}.

Definition validStatuses : list string := ["draft"; "published"].

(** (The last message is the source's without its quotation marks.) *)
Definition validatePost (d : PostData) : Result :=
  if blank (pd_title d) then Invalid "Title is required"
  else if (200 <? String.length (default "" (pd_title d)))%nat
  then Invalid "Title must be less than 200 characters"
  else if blank (pd_content d) then Invalid "Content is required"
  else if Js.truthy (pd_excerpt d) &&
          (300 <? String.length (default "" (pd_excerpt d)))%nat
  then Invalid "Excerpt must be less than 300 characters"
  else if Js.truthy (pd_status d) &&
          negb (Js.includes validStatuses (default "" (pd_status d)))
  then Invalid "Invalid status. Must be draft or published"
  else Valid.

End Validation.

(* ===================================================================== *)
(** ** Posts and [getPaginatedPosts] (src/lib/db.js) *)
(* ===================================================================== *)

Module Posts.
Import Store.

(** A row of the [posts] relation.  Timestamps are the ISO strings the
    handlers write. *)
Record Post := mkPost {
  id : string;
  author_id : string;
  title : string;
  slug : string;
  content : string;
  excerpt : option string;
  featured_image : option string;
  category_id : option string;
  status : string;
  published_at : option string;
  created_at : string;
  updated_at : string
}.

Global Instance Post_eq_dec : EqDecision Post.
Proof. solve_decision. Defined.

(** *** The query interface of the store *)

Inductive Column := Status | AuthorId | CategoryId | Title | Content | Excerpt.

Definition field (c : Column) (p : Post) : option string :=
  match c with
  | Status => Some (status p)
  | AuthorId => Some (author_id p)
  | CategoryId => category_id p
  | Title => Some (title p)
  | Content => Some (content p)
  | Excerpt => excerpt p
  end.

(** A filter of the query builder: [.eq(column, value)], or
    [.or('c1.ilike.p1,c2.ilike.p2,...')].  The argument of [.or] is written
    in the store's filter syntax; for patterns without the characters of
    that syntax (see [syntax_free]) it denotes the disjunction [OrIlike]. *)
Inductive Filter :=
| Eq (c : Column) (v : string)
| OrIlike (alts : list (Column * string)).

(** [select(..., {count: 'exact'})] with its filters, the descending order
    on [published_at] and [.range(from, to)]. *)
Record Query := mkQuery {
  filters : list Filter;
  range_from : Z;
  range_to : Z
}.

(** The tokens of an SQL [LIKE] pattern: [%] (for which the store also
    accepts [*]) matches any sequence, [_] any one character, a backslash
    makes the next character literal. *)
Inductive Tok := AnySeq | AnyOne | Lit (c : ascii).

Definition is_percent (c : ascii) : bool :=
  (Js.code c =? 37)%N || (Js.code c =? 42)%N.
Definition is_underscore (c : ascii) : bool := (Js.code c =? 95)%N.
Definition is_backslash (c : ascii) : bool := (Js.code c =? 92)%N.

(** (A pattern that ends in a lone backslash is not built by this
    program; its backslash is dropped.) *)
Fixpoint tokens (pat : string) : list Tok :=
  match pat with
  | "" => []
  | String c p' =>
      if is_percent c then AnySeq :: tokens p'
      else if is_underscore c then AnyOne :: tokens p'
      else if is_backslash c then
        match p' with
        | String d p'' => Lit d :: tokens p''
        | "" => []
        end
      else Lit c :: tokens p'
  end.

(** Equality of characters up to case. *)
Definition ci_eqb (c d : ascii) : bool :=
  Ascii.eqb (Js.lower_char c) (Js.lower_char d).

Fixpoint like (ts : list Tok) (text : string) : bool :=
  match ts with
  | [] => String.eqb text ""
  | Lit c :: ts' =>
      match text with
      | String d t' => ci_eqb c d && like ts' t'
      | "" => false
      end
  | AnyOne :: ts' =>
      match text with
      | String _ t' => like ts' t'
      | "" => false
      end
  | AnySeq :: ts' =>
      (fix skip (t : string) : bool :=
         like ts' t ||
         match t with
         | String _ t' => skip t'
         | "" => false
         end) text
  end.

(** The pattern that matches the characters of [s] literally. *)
Fixpoint lits (s : string) : list Tok :=
  match s with
  | "" => []
  | String c s' => Lit c :: lits s'
  end.

(** [column ILIKE pattern]; a null column matches nothing. *)
Definition ilike (v : option string) (pat : string) : bool :=
  match v with
  | Some text => like (tokens pat) text
  | None => false
  end.

Definition holds (f : Filter) (p : Post) : bool :=
  match f with
  | Eq c v => match field c p with
              | Some x => String.eqb x v
              | None => false
              end
  | OrIlike alts => existsb (λ a, ilike (field a.1 p) a.2) alts
  end.

Definition matches (q : Query) (p : Post) : bool :=
  forallb (λ f, holds f p) (filters q).

(** [ORDER BY published_at DESC]: later timestamps first, nulls before
    all; the order among rows that tie is the store's own. *)
Definition later_or_same (p q : Post) : Prop :=
  match published_at p, published_at q with
  | None, _ => True
  | Some _, None => False
  | Some x, Some y => String.leb y x = true
  end.

Global Instance later_or_same_dec : RelDecision later_or_same.
Proof.
  intros p q. unfold later_or_same.
  destruct (published_at p), (published_at q); apply _.
Defined.

(** The filtered, ordered result set of a query. *)
Definition result_set (q : Query) (tbl : list Post) : list Post :=
  merge_sort later_or_same (filter (λ p, matches q p = true) tbl).

(** Rows [from .. to] of a list, both ends included, counted from 0. *)
Definition rows_in_range (from to : Z) (l : list Post) : list Post :=
  take (Z.to_nat (to - from + 1)) (drop (Z.to_nat from) l).

(** The reply to a list query: [{data, error, count}]. *)
Record ListReply := mkListReply {
  l_data : option (list Post);
  l_error : option StoreError;
  l_count : option nat
}.

(** The reply of a store that answers [q] over the table [tbl]: the rows
    of the range, and the exact count of the whole result set.  Ranges
    other than [0 <= from <= to] are not requested with [page >= 1] and
    [pageSize >= 1]; the store of the model rejects them.  (Whatever else
    a store may refuse to answer is a reply [Errored] of [store_of].) *)
Definition answer (tbl : list Post) (q : Query) : ListReply :=
  if ((0 <=? range_from q) && (range_from q <=? range_to q))%Z
  then let rs := result_set q tbl in
       mkListReply (Some (rows_in_range (range_from q) (range_to q) rs))
                   None (Some (length rs))
  else mkListReply None (Some QueryFailed) None.

(** A store for list queries: it replies, or the call throws ([None]). *)
Definition ListStore := Query → option ListReply.

Definition store_of (fault : Fault) (tbl : list Post) : ListStore :=
  λ q, match fault with
       | Answered => Some (answer tbl q)
       | Errored => Some (mkListReply None (Some QueryFailed) None)
       | Thrown => None
       end.

(** *** [getPaginatedPosts] *)

Record Options := mkOptions {
  o_page : option Z;
  o_pageSize : option Z;
  o_status : option string;
  o_authorId : option string;
  o_categoryId : option string;
  o_search : option string
}.

(** A JavaScript number that is an integer, [NaN] or [Infinity]. *)
Inductive JsNum := Num (z : Z) | NaN | Infinity.

(** [Math.ceil(count / pageSize)] for a count [>= 0]. *)
Definition ceil_div (count pageSize : Z) : JsNum :=
  if (pageSize =? 0)%Z
  then (if (count =? 0)%Z then NaN else Infinity)
  else Num (- ((- count) / pageSize))%Z.

Record Page := mkPage {
  posts : list Post;
  total : Z;
  page : Z;
  pageSize : Z;
  totalPages : JsNum
}.

Definition search_pattern (search : string) : string :=
  "%" +:+ search +:+ "%".

(** The query the function builds. *)
Definition build_query (o : Options) : Query :=
  let page := default 1%Z (o_page o) in
  let pageSize := default 12%Z (o_pageSize o) in
  let from := ((page - 1) * pageSize)%Z in
  let to := (from + pageSize - 1)%Z in
  mkQuery
    ([Eq Status (default "published" (o_status o))]
     ++ (if Js.truthy (o_authorId o)
         then [Eq AuthorId (default "" (o_authorId o))] else [])
     ++ (if Js.truthy (o_categoryId o)
         then [Eq CategoryId (default "" (o_categoryId o))] else [])
     ++ (if Js.truthy (o_search o)
         then let pat := search_pattern (default "" (o_search o)) in
              [OrIlike [(Title, pat); (Content, pat); (Excerpt, pat)]]
         else []))
    from to.

Definition empty_page (o : Options) : Page :=
  mkPage [] 0 (default 1%Z (o_page o)) (default 12%Z (o_pageSize o)) (Num 0).

Definition getPaginatedPosts (store : ListStore) (o : Options) : Page :=
  match store (build_query o) with
  | None => empty_page o
  | Some r =>
      match l_error r with
      | Some _ => empty_page o
      | None =>
          let count := Z.of_nat (default 0%nat (l_count r)) in
          mkPage (default [] (l_data r)) count
                 (default 1%Z (o_page o)) (default 12%Z (o_pageSize o))
                 (ceil_div count (default 12%Z (o_pageSize o)))
      end
  end.

(** *** What the specification calls a match *)

(** [s] occurs in [text], case ignored. *)
Definition ci_substring (s text : string) : Prop :=
  ∃ pre post, Js.toLowerCase text = pre +:+ Js.toLowerCase s +:+ post.

Definition ci_substring_opt (s : string) (v : option string) : Prop :=
  match v with
  | Some text => ci_substring s text
  | None => False
  end.

Fixpoint string_forall (P : ascii → bool) (s : string) : bool :=
  match s with
  | "" => true
  | String c s' => P c && string_forall P s'
  end.

(** No character of [s] is a wildcard of a [LIKE] pattern. *)
Definition wildcard_free (s : string) : bool :=
  string_forall
    (λ c, negb (is_percent c || is_underscore c || is_backslash c)) s.

(** No character of [s] belongs to the syntax of [.or(...)]: the comma,
    the parentheses and the double quote. *)
Definition syntax_free (s : string) : bool :=
  string_forall
    (λ c, negb ((Js.code c =? 44)%N || (Js.code c =? 40)%N ||
                (Js.code c =? 41)%N || (Js.code c =? 34)%N)) s.

End Posts.

(* ===================================================================== *)
(** ** Comments and [deleteComment] (src/lib/db.js) *)
(* ===================================================================== *)

Module Comments.
Import Store.

Record Comment := mkComment {
  id : string;
  post_id : string;
  user_id : string;
  content : string;
  created_at : string;
  updated_at : string
}.

Definition has_id (commentId : string) (c : Comment) : bool :=
  String.eqb (id c) commentId.

(** [from('comments').select('user_id').eq('id', commentId).single()] *)
Definition fetch (tbl : list Comment) (commentId : string) : Reply Comment :=
  single (filter (λ c, has_id commentId c = true) tbl).

(** [from('comments').delete().eq('id', commentId)] *)
Definition delete_by_id (tbl : list Comment) (commentId : string) : list Comment :=
  filter (λ c, has_id commentId c = false) tbl.

(** [deleteComment]: the result and the table afterwards.  [on_fetch] and
    [on_delete] say how the two calls to the store go. *)
Definition deleteComment (on_fetch on_delete : Fault) (tbl : list Comment)
    (commentId userId userRole : string) : bool * list Comment :=
  match on_fetch with
  | Thrown => (false, tbl)
  | Errored => (false, tbl)
  | Answered =>
      let r := fetch tbl commentId in
      match error r, data r with
      | Some _, _ => (false, tbl)
      | None, None => (false, tbl)
      | None, Some comment =>
          if negb (String.eqb userRole "admin") &&
             negb (String.eqb (user_id comment) userId)
          then (false, tbl)
          else match on_delete with
               | Thrown => (false, tbl)
               | Errored => (false, tbl)
               | Answered => (true, delete_by_id tbl commentId)
               end
      end
  end.

End Comments.

(* ===================================================================== *)
(** ** The login and register routes (src/app/api/auth) *)
(* ===================================================================== *)

(** *** What the two routes share *)

Module Auth.
Import Store Validation.

Record User := mkUser {
  id : string;
  name : string;
  email : string;
  password : string;
  role : string;
  bio : option string;
  avatar_url : string;
  created_at : string;
  updated_at : string
}.

(** The payload of a token. *)
Record Claims := mkClaims {
  claim_id : string;
  claim_email : string;
  claim_role : string
}.

(** A user record with the [password] field removed. *)
Record PublicUser := mkPublicUser {
  pu_id : string;
  pu_name : string;
  pu_email : string;
  pu_role : string;
  pu_bio : option string;
  pu_avatar_url : string;
  pu_created_at : string;
  pu_updated_at : string
}.

Definition withoutPassword (u : User) : PublicUser :=
  mkPublicUser (id u) (name u) (email u) (role u) (bio u) (avatar_url u)
               (created_at u) (updated_at u).

Inductive Body :=
| Failure (error : string)
| Success (user : PublicUser) (token message : string).

Record Response := mkResponse { http_status : nat; body : Body }.

(** [from('users').select(..).eq('email', email).single()] *)
Definition find_by_email (users : list User) (e : string) : Reply User :=
  single (filter (λ u, String.eqb (email u) e = true) users).

Definition reply_under {A} (fault : Fault) (r : Reply A) : option (Reply A) :=
  match fault with
  | Answered => Some r
  | Errored => Some (failed QueryFailed)
  | Thrown => None
  end.

Definition internal_error : Response :=
  mkResponse 500 (Failure "Internal server error").

End Auth.

(** *** [POST /api/auth/login] (src/app/api/auth/login/route.js) *)

Module LoginRoute.
Import Store Validation Auth.

Section Handler.
(** The collaborators of the handler: [bcrypt.compare] and
    [generateToken]. *)
Variable compare : string → string → bool.
Variable generateToken : Claims → string.

Definition POST (on_find : Fault) (users : list User) (req : LoginData)
    : Response :=
  match validateLogin req with
  | Invalid e => mkResponse 400 (Failure e)
  | Valid =>
      let email := default "" (login_email req) in
      let password := default "" (login_password req) in
      match reply_under on_find (find_by_email users email) with
      | None => internal_error
      | Some r =>
          match error r, data r with
          | Some _, _ | None, None =>
              mkResponse 401 (Failure "Invalid email or password")
          | None, Some user =>
              if negb (compare password (Auth.password user))
              then mkResponse 401 (Failure "Invalid email or password")
              else mkResponse 200
                     (Success (withoutPassword user)
                        (generateToken
                           (mkClaims (id user) (Auth.email user) (role user)))
                        "Login successful")
          end
      end
  end.

End Handler.

End LoginRoute.

(** *** [POST /api/auth/register] (src/app/api/auth/register/route.js) *)

Module RegisterRoute.
Import Store Validation Auth.

Section Handler.
(** The collaborators of the handler: [bcrypt.hash] with its ten rounds,
    and [generateToken]. *)
Variable hash : string → string.
Variable generateToken : Claims → string.

(** The object the handler inserts; [new_id] is the key the store gives
    the row. *)
Definition new_user (new_id now : string) (req : RegistrationData) : User :=
  let email := default "" (reg_email req) in
  mkUser new_id
         (default "" (reg_name req))
         email
         (hash (default "" (reg_password req)))
         (Js.or_else (reg_role req) "reader")
         None
         ("https://api.dicebear.com/7.x/avataaars/svg?seed=" +:+ email)
         now now.

(** The response, and the [users] table afterwards. *)
Definition POST (on_find on_insert : Fault) (new_id now : string)
    (users : list User) (req : RegistrationData)
    : Response * list User :=
  match validateRegistration req with
  | Invalid e => (mkResponse 400 (Failure e), users)
  | Valid =>
      let email := default "" (reg_email req) in
      match reply_under on_find (find_by_email users email) with
      | None => (internal_error, users)
      | Some r =>
          match data r with
          | Some _ =>
              (mkResponse 400 (Failure "User with this email already exists"),
               users)
          | None =>
              match on_insert with
              | Thrown => (internal_error, users)
              | Errored =>
                  (mkResponse 500 (Failure "Failed to create user"), users)
              | Answered =>
                  let u := new_user new_id now req in
                  (mkResponse 201
                     (Success (withoutPassword u)
                        (generateToken
                           (mkClaims (id u) (Auth.email u) (role u)))
                        "User registered successfully"),
                   users ++ [u])
              end
          end
      end
  end.

End Handler.

End RegisterRoute.

(* ===================================================================== *)
(** ** The post routes: [POST /api/posts] and [PUT /api/posts/{slug}] *)
(* ===================================================================== *)

Module Routes.
Import Store Validation.
Export Posts.

Record PostTag := mkPostTag {
  pt_post_id : string;
  pt_tag_id : string;
  pt_created_at : string
}.

(** The relations the two handlers touch; [posts] is keyed by the primary
    key [id]. *)
Record Db := mkDb {
  posts : gmap string Post;
  post_tags : list PostTag
}.

Definition empty_db : Db := mkDb ∅ [].

Record Request := mkRequest {
  authorization : option string;
  req_body : PostData
}.

(** What the environment decides while one request is handled: the clock,
    the key of a new row, the outcome of [verifyToken], how the calls to
    the store go, and the bound on the probes of [generateSlug]. *)
Record Env := mkEnv {
  now : string;
  new_id : string;
  verifyToken : string → option Auth.Claims;
  slug_fuel : nat;
  slug_probe_fails : nat → bool;
  on_fetch : Fault;
  on_write : Fault
}.

Inductive Body :=
| Failure (error : string)
| Success (data : Post) (message : string).

Record Response := mkResponse { http_status : nat; body : Body }.

Definition unauthorized : Response := mkResponse 401 (Failure "Unauthorized").
Definition internal_error : Response :=
  mkResponse 500 (Failure "Internal server error").

Fixpoint startsWith (prefix s : string) : bool :=
  match prefix, s with
  | "", _ => true
  | String a p', String b s' => Ascii.eqb a b && startsWith p' s'
  | String _ _, "" => false
  end.

Fixpoint substring_from (n : nat) (s : string) : string :=
  match n, s with
  | O, _ => s
  | S n', String _ s' => substring_from n' s'
  | S _, "" => ""
  end.

(** The token of an [Authorization: Bearer ...] header, verified. *)
Definition authenticate (env : Env) (req : Request) : option Auth.Claims :=
  match authorization req with
  | Some h =>
      if negb (String.eqb h "") && startsWith "Bearer " h
      then verifyToken env (substring_from 7 h)
      else None
  | None => None
  end.

(** [v || null] *)
Definition or_null (v : option string) : option string :=
  if Js.truthy v then v else None.

Definition rows (db : Db) : list Post := (map_to_list (posts db)).*2.

(** The [posts] relation as [generateSlug] reads it. *)
Definition slug_db (env : Env) (db : Db) : Slug.Db :=
  Slug.mkDb {[ "posts" := (λ p, Slug.mkRow (id p) (slug p)) <$> rows db ]}
            (slug_probe_fails env).

(** The row [POST] inserts. *)
Definition new_post (env : Env) (author : Auth.Claims) (s : string)
    (b : PostData) : Post :=
  mkPost (new_id env)
         (Auth.claim_id author)
         (default "" (pd_title b))
         s
         (default "" (pd_content b))
         (or_null (pd_excerpt b))
         (or_null (pd_featured_image b))
         (or_null (pd_category_id b))
         (Js.or_else (pd_status b) "draft")
         (match pd_status b with
          | Some st => if String.eqb st "published" then Some (now env) else None
          | None => None
          end)
         (now env) (now env).

Definition tag_rows (env : Env) (post : string) (tags : list string)
    : list PostTag :=
  (λ t, mkPostTag post t (now env)) <$> tags.

(** [POST /api/posts].  [None] only when [slug_fuel] is too small for
    [generateSlug] to finish. *)
Definition POST (env : Env) (req : Request) (db : Db)
    : option (Response * Db) :=
  match authenticate env req with
  | None => Some (unauthorized, db)
  | Some decoded =>
      if negb (String.eqb (Auth.claim_role decoded) "admin") &&
         negb (String.eqb (Auth.claim_role decoded) "author")
      then Some (unauthorized, db)
      else
        let b := req_body req in
        match validatePost b with
        | Invalid e => Some (mkResponse 400 (Failure e), db)
        | Valid =>
            s ← Slug.generateSlug (slug_fuel env) (slug_db env db)
                   (default "" (pd_title b)) "posts" None;
            match on_write env with
            | Thrown => Some (internal_error, db)
            | Errored =>
                Some (mkResponse 500 (Failure "Failed to create post"), db)
            | Answered =>
                match posts db !! new_id env with
                | Some _ =>
                    Some (mkResponse 500 (Failure "Failed to create post"), db)
                | None =>
                    let p := new_post env decoded s b in
                    let tags := default [] (pd_tags b) in
                    Some (mkResponse 201 (Success p "Post created successfully"),
                          mkDb (<[new_id env := p]> (posts db))
                               (post_tags db ++ tag_rows env (id p) tags))
                end
            end
        end
  end.

(** The object [updateData] of [PUT]. *)
Record UpdateData := mkUpdate {
  u_updated_at : string;
  u_title : option string;
  u_slug : option string;
  u_content : option string;
  u_excerpt : option string;
  u_featured_image : option string;
  u_category_id : option string;
  u_status : option string;
  u_published_at : option string
}.

(** [update(updateData)] on one row: the columns named in [updateData]
    are overwritten, the others kept. *)
Definition apply_update (u : UpdateData) (p : Post) : Post :=
  mkPost (id p)
         (author_id p)
         (default (title p) (u_title u))
         (default (slug p) (u_slug u))
         (default (content p) (u_content u))
         (match u_excerpt u with Some e => Some e | None => excerpt p end)
         (match u_featured_image u with
          | Some e => Some e | None => featured_image p end)
         (match u_category_id u with
          | Some e => Some e | None => category_id p end)
         (default (status p) (u_status u))
         (match u_published_at u with
          | Some t => Some t | None => published_at p end)
         (created_at p)
         (u_updated_at u).

(** [updateData] as [PUT] fills it in; [new_slug] is what [generateSlug]
    returned, when it was called. *)
Definition update_data (env : Env) (existing : Post) (b : PostData)
    (new_slug : option string) : UpdateData :=
  mkUpdate (now env)
    (if Js.truthy (pd_title b) then pd_title b else None)
    new_slug
    (pd_content b)
    (pd_excerpt b)
    (pd_featured_image b)
    (pd_category_id b)
    (pd_status b)
    (match pd_status b with
     | Some st =>
         if String.eqb st "published" &&
            negb (String.eqb (status existing) "published")
         then Some (now env) else None
     | None => None
     end).

(** [from('posts').select('*').eq('slug', slug).single()] *)
Definition find_by_slug (db : Db) (s : string) : Reply Post :=
  single (filter (λ p, String.eqb (slug p) s = true) (rows db)).

(** The slug of the update: a new one only if a title is given and it
    differs from the stored one.  The outer [None] is a lack of fuel. *)
Definition reslug (env : Env) (db : Db) (existing : Post) (b : PostData)
    : option (option string) :=
  if Js.truthy (pd_title b) &&
     negb (String.eqb (default "" (pd_title b)) (title existing))
  then s ← Slug.generateSlug (slug_fuel env) (slug_db env db)
              (default "" (pd_title b)) "posts" (Some (id existing));
       Some (Some s)
  else Some None.

(** [PUT /api/posts/{slug}] *)
Definition PUT (env : Env) (slug_param : string) (req : Request) (db : Db)
    : option (Response * Db) :=
  match authenticate env req with
  | None => Some (unauthorized, db)
  | Some decoded =>
      match Auth.reply_under (on_fetch env) (find_by_slug db slug_param) with
      | None => Some (internal_error, db)
      | Some r =>
          match error r, data r with
          | Some _, _ | None, None =>
              Some (mkResponse 404 (Failure "Post not found"), db)
          | None, Some existing =>
              if negb (String.eqb (Auth.claim_role decoded) "admin") &&
                 negb (String.eqb (author_id existing) (Auth.claim_id decoded))
              then Some (mkResponse 401
                           (Failure "Unauthorized to edit this post"), db)
              else
                let b := req_body req in
                new_slug ← reslug env db existing b;
                match on_write env with
                | Thrown => Some (internal_error, db)
                | Errored =>
                    Some (mkResponse 500 (Failure "Failed to update post"), db)
                | Answered =>
                    let p := apply_update
                               (update_data env existing b new_slug) existing in
                    let tags' :=
                      match pd_tags b with
                      | Some tags =>
                          (filter (λ t, pt_post_id t ≠ id existing)
                                  (post_tags db)
                           ++ tag_rows env (id existing) tags)%list
                      | None => post_tags db
                      end in
                    Some (mkResponse 200 (Success p "Post updated successfully"),
                          mkDb (<[id existing := p]> (posts db)) tags')
                end
          end
      end
  end.

(** A published post carries a publication time. *)
Definition dated (p : Post) : Prop :=
  status p = "published" → published_at p ≠ None.

(** The states of the store that the two handlers can produce, starting
    from the empty store. *)
Inductive reachable : Db → Prop :=
| reach_empty : reachable empty_db
| reach_POST env req db resp db' :
    reachable db → POST env req db = Some (resp, db') → reachable db'
| reach_PUT env s req db resp db' :
    reachable db → PUT env s req db = Some (resp, db') → reachable db'.

End Routes.

(* ===================================================================== *)
(** ** The normalisation of a title, as the specification words it *)
(* ===================================================================== *)

Module SlugSpec.

(** The maximal runs of [s]: each run is tagged with whether its
    characters lie in [[a-z0-9]]. *)
Fixpoint runs (s : string) : list (bool * string) :=
  match s with
  | "" => []
  | String c s' =>
      let b := Js.is_slug_char c in
      match runs s' with
      | (b', g) :: gs =>
          if Bool.eqb b b' then (b, String c g) :: gs
          else (b, String c "") :: (b', g) :: gs
      | [] => [(b, String c "")]
      end
  end.

(** A run of characters outside [[a-z0-9]] collapses to one hyphen. *)
Definition collapse_run (r : bool * string) : string :=
  if r.1 then r.2 else "-".

Fixpoint join (l : list string) : string :=
  match l with
  | [] => ""
  | x :: l' => x +:+ join l'
  end.

Definition collapse (s : string) : string := join (collapse_run <$> runs s).

Definition trim_hyphens (s : string) : string :=
  Slug.strip_trailing (Slug.strip_leading s).

(** Lowercase, collapse the runs, trim the hyphens. *)
Definition normalize (title : string) : string :=
  trim_hyphens (collapse (Js.toLowerCase title)).

End SlugSpec.

(* ===================================================================== *)
(** ** Concrete stores and requests *)
(* ===================================================================== *)

Module Examples.

Definition my_title_row : Slug.Row := Slug.mkRow "1" "my-title".
Definition my_title_twin : Slug.Row := Slug.mkRow "2" "my-title".

(** One row bears the slug. *)
Definition one_row_db : Slug.Db := Slug.healthy "posts" [my_title_row].

(** Two rows bear the same slug. *)
Definition twin_db : Slug.Db :=
  Slug.healthy "posts" [my_title_row; my_title_twin].

(** One row bears the slug, and every query fails. *)
Definition unreachable_db : Slug.Db :=
  Slug.mkDb {[ "posts" := [my_title_row] ]} (λ _, true).

Definition empty_posts_db : Slug.Db := Slug.healthy "posts" [].

Definition noon : string := "2024-05-01T12:00:00.000Z".

(** Published posts of one author in one category. *)
Definition sample_post (n : nat) : Posts.Post :=
  Posts.mkPost (pretty n) "author-1" ("Post " +:+ pretty n)
    ("post-" +:+ pretty n) "Body" None None (Some "cat-1")
    "published" (Some noon) noon noon.

Definition posts25 : list Posts.Post := sample_post <$> seq 0 25.

Definition page2_of_10 : Posts.Options :=
  Posts.mkOptions (Some 2%Z) (Some 10%Z) None None None None.

Definition abc_post : Posts.Post :=
  Posts.mkPost "1" "author-1" "abc" "abc" "x" None None None
    "published" (Some noon) noon noon.

Definition search_a_c : Posts.Options :=
  Posts.mkOptions None None None None None (Some "a_c").

Definition comment_of_ann : Comments.Comment :=
  Comments.mkComment "c1" "1" "ann" "Nice post" noon noon.

Definition comment_of_bob : Comments.Comment :=
  Comments.mkComment "c2" "1" "bob" "Thanks" noon noon.

Definition comments : list Comments.Comment :=
  [comment_of_ann; comment_of_bob].

Definition ann : Auth.User :=
  Auth.mkUser "ann" "Ann" "ann@example.org" "hash-of-ann" "author" None
    "https://api.dicebear.com/7.x/avataaars/svg?seed=ann@example.org"
    noon noon.

Definition login_of_ann : Validation.LoginData :=
  Validation.mkLogin (Some "ann@example.org") (Some "guess").

Definition login_of_nobody : Validation.LoginData :=
  Validation.mkLogin (Some "nobody@example.org") (Some "secret").

(** A password check that accepts only the pair it is built from. *)
Definition compare_with (password hashed : string) : string → string → bool :=
  λ p h, String.eqb p password && String.eqb h hashed.

Definition token_of (c : Auth.Claims) : string :=
  "token:" +:+ Auth.claim_id c.

Definition registration_of_bob : Validation.RegistrationData :=
  Validation.mkRegistration (Some "Bob") (Some "bob@example.org")
    (Some "secret1") None.

(** An author creates a published post, then sets it back to draft. *)
Definition request_env (at_time key : string) : Routes.Env :=
  Routes.mkEnv at_time key
    (λ _, Some (Auth.mkClaims "ann" "ann@example.org" "author"))
    10 (λ _, false) Store.Answered Store.Answered.

Definition create_published : Routes.Request :=
  Routes.mkRequest (Some "Bearer t")
    (Validation.mkPostData (Some "Hello World") (Some "Body") None None None
       (Some "published") None).

Definition unpublish : Routes.Request :=
  Routes.mkRequest (Some "Bearer t")
    (Validation.mkPostData None None None None None (Some "draft") None).

Definition after_create : option (Routes.Response * Routes.Db) :=
  Routes.POST (request_env noon "p1") create_published Routes.empty_db.

Definition after_unpublish : option (Routes.Response * Routes.Db) :=
  r ← after_create;
  Routes.PUT (request_env "2024-06-01T08:00:00.000Z" "p2") "hello-world"
    unpublish r.2.

(** The same author creates a second post with the same title. *)
Definition after_second_create : option (Routes.Response * Routes.Db) :=
  r ← after_create;
  Routes.POST (request_env "2024-06-01T08:00:00.000Z" "p2") create_published r.2.

Definition slug_of (key : string) (r : option (Routes.Response * Routes.Db))
    : option string :=
  r' ← r; p ← Routes.posts r'.2 !! key; Some (Posts.slug p).

Definition created_db : Routes.Db :=
  default Routes.empty_db (snd <$> after_create).

Definition unpublished_db : Routes.Db :=
  default Routes.empty_db (snd <$> after_unpublish).

(** The post as it is created. *)
Definition created_post : Posts.Post :=
  Posts.mkPost "p1" "ann" "Hello World" "hello-world" "Body" None None None
    "published" (Some noon) noon noon.

(** The post as it is stored in the end. *)
Definition unpublished_post : Posts.Post :=
  Posts.mkPost "p1" "ann" "Hello World" "hello-world" "Body" None None None
    "draft" (Some noon) noon "2024-06-01T08:00:00.000Z".

Definition search_post : Posts.Options :=
  Posts.mkOptions (Some 1%Z) (Some 25%Z) None
    (Some "author-1") (Some "cat-1") (Some "post").

End Examples.

(* ===================================================================== *)
(** ** src/lib/jwt.js: the token of a request *)
(* ===================================================================== *)

Module Jwt.

(** [extractTokenFromHeader]: the rest of a header that starts with
    [Bearer ] (with the space), [null] for every other header. *)
Definition extractTokenFromHeader (authHeader : option string) : option string :=
  match authHeader with
  | Some h =>
      if negb (String.eqb h "") && Routes.startsWith "Bearer " h
      then Some (Routes.substring_from 7 h)
      else None
  | None => None
  end.

(** [verifyTokenFromRequest]; [verifyToken] wraps the signature check of
    the token library and is a parameter.  An empty token is not handed to
    it. *)
Definition verifyTokenFromRequest (verifyToken : string → option Auth.Claims)
    (authorization : option string) : option Auth.Claims :=
  match extractTokenFromHeader authorization with
  | Some token => if String.eqb token "" then None else verifyToken token
  | None => None
  end.

End Jwt.

(* ===================================================================== *)
(** ** src/lib/validation.js: categories, tags and comments *)
(* ===================================================================== *)

Module Validators.
Import Validation.

Record CategoryData := mkCategoryData {
  cd_name : option string;
  cd_description : option string
}.

Definition validateCategory (d : CategoryData) : Result :=
  if blank (cd_name d) then Invalid "Category name is required"
  else if (100 <? String.length (default "" (cd_name d)))%nat
  then Invalid "Category name must be less than 100 characters"
  else if Js.truthy (cd_description d) &&
          (500 <? String.length (default "" (cd_description d)))%nat
  then Invalid "Description must be less than 500 characters"
  else Valid.

Record TagData := mkTagData { td_name : option string }.

Definition validateTag (d : TagData) : Result :=
  if blank (td_name d) then Invalid "Tag name is required"
  else if (50 <? String.length (default "" (td_name d)))%nat
  then Invalid "Tag name must be less than 50 characters"
  else Valid.

Record CommentData := mkCommentData { cm_content : option string }.

Definition validateComment (d : CommentData) : Result :=
  if blank (cm_content d) then Invalid "Comment content is required"
  else if (1000 <? String.length (default "" (cm_content d)))%nat
  then Invalid "Comment must be less than 1000 characters"
  else Valid.

(** Some character of [s] is not white space. *)
Definition has_visible (s : string) : bool :=
  negb (Posts.string_forall Js.is_space s).

End Validators.

(* ===================================================================== *)
(** ** src/lib/db.js: reading and writing comments, a post by its slug *)
(* ===================================================================== *)

Module Relations.

(** A row of a related table as a query returns it: the selected columns
    with their values. *)
Definition Obj := list (string * option string).

Definition get (col : string) (o : Obj) : option string :=
  match list_find (λ kv, kv.1 = col) o with
  | Some (_, (_, v)) => v
  | None => None
  end.

Definition user_column (col : string) (u : Auth.User) : option string :=
  if String.eqb col "id" then Some (Auth.id u)
  else if String.eqb col "name" then Some (Auth.name u)
  else if String.eqb col "email" then Some (Auth.email u)
  else if String.eqb col "avatar_url" then Some (Auth.avatar_url u)
  else if String.eqb col "bio" then Auth.bio u
  else None.

(** [alias:users!fkey(columns)]: the user a foreign key points to, if there
    is one. *)
Definition related_user (cols : list string) (users : list Auth.User)
    (key : string) : option Obj :=
  (λ u, (λ c, (c, user_column c u)) <$> cols)
    <$> head (filter (λ u, String.eqb (Auth.id u) key = true) users).

End Relations.

Module CommentOps.
Import Store Comments Relations.

(** A comment with its [user] relation. *)
Record CommentView := mkCommentView {
  cv_comment : Comment;
  cv_user : option Obj
}.

Definition view (users : list Auth.User) (c : Comment) : CommentView :=
  mkCommentView c (related_user ["id"; "name"; "avatar_url"] users (user_id c)).

(** [order('created_at', { ascending: false })] *)
Definition newer_or_same (a b : Comment) : Prop :=
  String.le (created_at b) (created_at a).

Global Instance newer_or_same_dec : RelDecision newer_or_same.
Proof. intros a b. unfold newer_or_same. apply _. Defined.

Definition of_post (postId : string) (c : Comment) : bool :=
  String.eqb (post_id c) postId.

(** [getPostComments] *)
Definition getPostComments (fault : Fault) (users : list Auth.User)
    (tbl : list Comment) (postId : string) : list CommentView :=
  match fault with
  | Thrown => []
  | Errored => []
  | Answered =>
      view users <$>
        merge_sort newer_or_same (filter (λ c, of_post postId c = true) tbl)
  end.

Record NewComment := mkNewComment {
  nc_post_id : string;
  nc_user_id : string;
  nc_content : string
}.

(** [createComment]: what it returns and the table afterwards.  [new_id] is
    the key the store gives the row and [now] the time of the call; a key
    that is already there makes the insert fail. *)
Definition createComment (fault : Fault) (new_id now : string)
    (users : list Auth.User) (tbl : list Comment) (d : NewComment)
    : option CommentView * list Comment :=
  match fault with
  | Thrown => (None, tbl)
  | Errored => (None, tbl)
  | Answered =>
      if existsb (has_id new_id) tbl then (None, tbl)
      else
        let c := mkComment new_id (nc_post_id d) (nc_user_id d)
                           (nc_content d) now now in
        (Some (view users c), tbl ++ [c])
  end.

End CommentOps.

(* ===================================================================== *)
(** ** Reading and deleting posts: [getPostBySlug] (src/lib/db.js),
       [GET /api/posts], [GET] and [DELETE /api/posts/{slug}] *)
(* ===================================================================== *)

Module Site.
Import Store Relations.
Export Posts.

Record Category := mkCategory {
  cat_id : string;
  cat_name : string;
  cat_slug : string;
  cat_description : option string
}.

Record Tag := mkTag { tag_id : string; tag_name : string; tag_slug : string }.

(** All the relations: the posts and their tag rows as the write handlers
    hold them, and the comments, users, categories and tags. *)
Record Db := mkDb {
  core : Routes.Db;
  comments : list Comments.Comment;
  users : list Auth.User;
  categories : list Category;
  tags : list Tag
}.

Definition category_column (col : string) (c : Category) : option string :=
  if String.eqb col "id" then Some (cat_id c)
  else if String.eqb col "name" then Some (cat_name c)
  else if String.eqb col "slug" then Some (cat_slug c)
  else if String.eqb col "description" then cat_description c
  else None.

Definition tag_column (col : string) (t : Tag) : option string :=
  if String.eqb col "id" then Some (tag_id t)
  else if String.eqb col "name" then Some (tag_name t)
  else if String.eqb col "slug" then Some (tag_slug t)
  else None.

(** [category:categories!posts_category_id_fkey(id, name, slug)] *)
Definition related_category (db : Db) (key : option string) : option Obj :=
  k ← key;
  (λ c, (λ col, (col, category_column col c)) <$> ["id"; "name"; "slug"])
    <$> head (filter (λ c, String.eqb (cat_id c) k = true) (categories db)).

(** [tag:tags(id, name, slug)] *)
Definition related_tag (db : Db) (key : string) : option Obj :=
  (λ t, (λ col, (col, tag_column col t)) <$> ["id"; "name"; "slug"])
    <$> head (filter (λ t, String.eqb (tag_id t) key = true) (tags db)).

(** [post_tags(tag:tags(id, name, slug))]: one entry for each tag row of
    the post, holding the tag or [null]. *)
Definition related_tags (db : Db) (p : Post) : list (option Obj) :=
  (λ pt, related_tag db (Routes.pt_tag_id pt))
    <$> filter (λ pt, Routes.pt_post_id pt = id p)
               (Routes.post_tags (core db)).

(** A post with its [author], [category] and [post_tags] relations. *)
Record PostView := mkPostView {
  pv_post : Post;
  pv_author : option Obj;
  pv_category : option Obj;
  pv_post_tags : list (option Obj)
}.

Definition view (author_cols : list string) (db : Db) (p : Post) : PostView :=
  mkPostView p
    (related_user author_cols (users db) (author_id p))
    (related_category db (category_id p))
    (related_tags db p).

(** [error || !post] *)
Definition found {A} (r : Reply A) : option A :=
  match error r, data r with
  | Some _, _ => None
  | None, v => v
  end.

(** [getPostBySlug] *)
Definition getPostBySlug (fault : Fault) (db : Db) (s : string)
    : option PostView :=
  match Auth.reply_under fault (Routes.find_by_slug (core db) s) with
  | None => None
  | Some r =>
      view ["id"; "name"; "email"; "avatar_url"; "bio"] db <$> found r
  end.

Inductive Body :=
| Failure (error : string)
| Found (data : PostView)
| Listing (data : list PostView) (count : nat)
| Done (message : string).

Record Response := mkResponse { http_status : nat; body : Body }.

Definition internal_error : Response :=
  mkResponse 500 (Failure "Internal server error").

Definition not_found : Response := mkResponse 404 (Failure "Post not found").

(** *** [GET /api/posts/{slug}] *)

Definition published_with_slug (s : string) (p : Post) : bool :=
  String.eqb (slug p) s && String.eqb (status p) "published".

Definition GET_by_slug (fault : Fault) (db : Db) (s : string) : Response :=
  match Auth.reply_under fault
          (single (filter (λ p, published_with_slug s p = true)
                          (Routes.rows (core db)))) with
  | None => internal_error
  | Some r =>
      match found r with
      | None => not_found
      | Some p =>
          mkResponse 200
            (Found (view ["id"; "name"; "email"; "avatar_url"; "bio"] db p))
      end
  end.

(** *** [GET /api/posts] *)

(** The parameters of the query string; [None] is a parameter that is not
    given. *)
Record ListParams := mkListParams {
  lp_category : option string;
  lp_tag : option string;
  lp_search : option string
}.

(** [from('categories').select('id').eq('slug', categorySlug).single()],
    of which the handler reads [data] only. *)
Definition category_by_slug (db : Db) (s : string) : Reply Category :=
  single (filter (λ c, String.eqb (cat_slug c) s = true) (categories db)).

(** The filters of the list query, given what the category lookup
    returned. *)
Definition list_filters (category : option Category) (search : option string)
    : list Filter :=
  [Eq Status "published"]
  ++ match category with
     | Some c => [Eq CategoryId (cat_id c)]
     | None => []
     end
  ++ (if Js.truthy search
      then let pat := search_pattern (default "" search) in
           [OrIlike [(Title, pat); (Content, pat); (Excerpt, pat)]]
      else []).

(** [post.post_tags?.some(pt => pt.tag?.slug === tagSlug)] *)
Definition has_tag (tagSlug : string) (v : PostView) : bool :=
  existsb (λ t, match t with
                | Some o => bool_decide (get "slug" o = Some tagSlug)
                | None => false
                end)
          (pv_post_tags v).

Definition GET (on_category on_posts : Fault) (db : Db) (q : ListParams)
    : Response :=
  let lookup :=
    if Js.truthy (lp_category q)
    then match Auth.reply_under on_category
                 (category_by_slug db (default "" (lp_category q))) with
         | None => None
         | Some r => Some (data r)
         end
    else Some None in
  match lookup with
  | None => internal_error
  | Some category =>
      match on_posts with
      | Thrown => internal_error
      | Errored => mkResponse 500 (Failure "Failed to fetch posts")
      | Answered =>
          let posts :=
            view ["id"; "name"; "email"; "avatar_url"] db
              <$> result_set (mkQuery (list_filters category (lp_search q)) 0 0)
                    (Routes.rows (core db)) in
          let filtered :=
            if Js.truthy (lp_tag q)
            then filter (λ v, has_tag (default "" (lp_tag q)) v = true) posts
            else posts in
          mkResponse 200 (Listing filtered (length filtered))
      end
  end.

(** *** [DELETE /api/posts/{slug}] *)

(** The caller is an admin or the author of the post. *)
Definition may_delete (decoded : Auth.Claims) (existing : Post) : Prop :=
  Auth.claim_role decoded = "admin" ∨ author_id existing = Auth.claim_id decoded.

(** The response and the relations afterwards.  [env] gives the token check
    and how the lookup of the post and its deletion go, [on_tags] and
    [on_comments] how the deletion of its tag rows and of its comments go;
    the handler does not look at what these two return. *)
Definition DELETE (env : Routes.Env) (on_tags on_comments : Fault)
    (slug_param : string) (req : Routes.Request) (db : Db) : Response * Db :=
  match Routes.authenticate env req with
  | None => (mkResponse 401 (Failure "Unauthorized"), db)
  | Some decoded =>
      match Auth.reply_under (Routes.on_fetch env)
              (Routes.find_by_slug (core db) slug_param) with
      | None => (internal_error, db)
      | Some r =>
          match found r with
          | None => (not_found, db)
          | Some existing =>
              if negb (String.eqb (Auth.claim_role decoded) "admin") &&
                 negb (String.eqb (author_id existing) (Auth.claim_id decoded))
              then (mkResponse 401
                      (Failure "Unauthorized to delete this post"), db)
              else
                match on_tags with
                | Thrown => (internal_error, db)
                | _ =>
                    let tags' :=
                      match on_tags with
                      | Answered =>
                          filter (λ t, Routes.pt_post_id t ≠ id existing)
                                 (Routes.post_tags (core db))
                      | _ => Routes.post_tags (core db)
                      end in
                    let db1 :=
                      mkDb (Routes.mkDb (Routes.posts (core db)) tags')
                           (comments db) (users db) (categories db) (tags db) in
                    match on_comments with
                    | Thrown => (internal_error, db1)
                    | _ =>
                        let comments' :=
                          match on_comments with
                          | Answered =>
                              filter (λ c, Comments.post_id c ≠ id existing)
                                     (comments db)
                          | _ => comments db
                          end in
                        let db2 :=
                          mkDb (core db1) comments' (users db)
                               (categories db) (tags db) in
                        match Routes.on_write env with
                        | Thrown => (internal_error, db2)
                        | Errored =>
                            (mkResponse 500 (Failure "Failed to delete post"),
                             db2)
                        | Answered =>
                            (mkResponse 200 (Done "Post deleted successfully"),
                             mkDb (Routes.mkDb
                                     (delete (id existing)
                                        (Routes.posts (core db2)))
                                     (Routes.post_tags (core db2)))
                                  comments' (users db) (categories db)
                                  (tags db))
                        end
                    end
                end
          end
      end
  end.

End Site.

(* ===================================================================== *)
(** ** What the write handlers keep of the [posts] relation *)
(* ===================================================================== *)

Module Integrity.
Import Posts.

(** A row is stored under its primary key. *)
Definition keyed (db : Routes.Db) : Prop :=
  ∀ k p, Routes.posts db !! k = Some p → id p = k.

(** No two posts bear the same slug. *)
Definition slugs_unique (db : Routes.Db) : Prop :=
  ∀ k1 k2 p1 p2,
    Routes.posts db !! k1 = Some p1 → Routes.posts db !! k2 = Some p2 →
    slug p1 = slug p2 → k1 = k2.

(** Every probe of [generateSlug] is answered. *)
Definition probes_answered (env : Routes.Env) : Prop :=
  ∀ n, Routes.slug_probe_fails env n = false.

End Integrity.

(* ===================================================================== *)
(** ** The shape of a slug *)
(* ===================================================================== *)

Module SlugShape.

Definition slug_or_hyphen (c : ascii) : bool :=
  Js.is_slug_char c || Slug.is_hyphen c.

Definition starts_with_hyphen (s : string) : bool :=
  match s with
  | String c _ => Slug.is_hyphen c
  | "" => false
  end.

Fixpoint ends_with_hyphen (s : string) : bool :=
  match s with
  | "" => false
  | String c s' =>
      match s' with
      | "" => Slug.is_hyphen c
      | _ => ends_with_hyphen s'
      end
  end.

Fixpoint has_double_hyphen (s : string) : bool :=
  match s with
  | "" => false
  | String c s' =>
      Slug.is_hyphen c && starts_with_hyphen s' || has_double_hyphen s'
  end.

(** Made of [a-z], [0-9] and single hyphens, with no hyphen at either
    end. *)
Definition clean (s : string) : bool :=
  Posts.string_forall slug_or_hyphen s &&
  negb (starts_with_hyphen s) &&
  negb (ends_with_hyphen s) &&
  negb (has_double_hyphen s).

(** No character of the title is a letter of [a-z] or a digit once the
    title is in lower case. *)
Definition no_slug_char (title : string) : bool :=
  Posts.string_forall (λ c, negb (Js.is_slug_char (Js.lower_char c))) title.

End SlugShape.

(* ===================================================================== *)
(** ** More concrete data *)
(* ===================================================================== *)

Module Samples.

Definition ann_claims : Auth.Claims :=
  Auth.mkClaims "ann" "ann@example.org" "author".

(** A check of tokens that knows one token. *)
Definition verify_ann (token : string) : option Auth.Claims :=
  if String.eqb token "t-ann" then Some ann_claims else None.

Definition env_of_ann : Routes.Env :=
  Routes.mkEnv Examples.noon "p1" verify_ann 10 (λ _, false)
    Store.Answered Store.Answered.

Definition rocq_tag : Site.Tag := Site.mkTag "t1" "Rocq" "rocq".

Definition news : Site.Category := Site.mkCategory "cat-1" "News" "news" None.

Definition draft_post : Posts.Post :=
  Posts.mkPost "p9" "ann" "Notes" "notes" "Body" None None None
    "draft" None Examples.noon Examples.noon.

(** Two published posts, of which the first is tagged, a draft, and a
    comment on each published post. *)
Definition site : Site.Db :=
  Site.mkDb
    (Routes.mkDb
       (list_to_map [("0", Examples.sample_post 0); ("1", Examples.sample_post 1);
                     ("p9", draft_post)])
       [Routes.mkPostTag "0" "t1" Examples.noon])
    [Comments.mkComment "c1" "0" "ann" "Nice post" Examples.noon Examples.noon;
     Comments.mkComment "c2" "1" "bob" "Thanks" Examples.noon Examples.noon]
    [Examples.ann] [news] [rocq_tag].

Definition delete_request : Routes.Request :=
  Routes.mkRequest (Some "Bearer t-ann")
    (Validation.mkPostData None None None None None None None).

(** The post "post-0" of [site] belongs to [author-1]; this token is
    theirs. *)
Definition verify_author1 (token : string) : option Auth.Claims :=
  if String.eqb token "t-ann"
  then Some (Auth.mkClaims "author-1" "a1@example.org" "author") else None.

Definition env_of_author1 (on_write : Store.Fault) : Routes.Env :=
  Routes.mkEnv Examples.noon "p1" verify_author1 10 (λ _, false)
    Store.Answered on_write.

Definition by_tag_rocq : Site.ListParams :=
  Site.mkListParams (Some "news") (Some "rocq") None.

Definition comment_of_carl : CommentOps.NewComment :=
  CommentOps.mkNewComment "1" "carl" "First!".

Definition june : string := "2024-06-01T08:00:00.000Z".

(** A second post with the title of the first. *)
Definition second_create : Routes.Response * Routes.Db :=
  default (Routes.unauthorized, Routes.empty_db) Examples.after_second_create.

(** The author changes the title of the post to one with the same slug,
    and gives it one tag. *)
Definition retitle : Routes.Request :=
  Routes.mkRequest (Some "Bearer t")
    (Validation.mkPostData (Some "Hello, World!") None None None None None
       (Some ["t2"])).

Definition after_retitle : Routes.Response * Routes.Db :=
  default (Routes.unauthorized, Routes.empty_db)
    (Routes.PUT (Examples.request_env june "p2") "hello-world" retitle
       Examples.created_db).

End Samples.

(* ===================================================================== *)
(** * Properties *)
(* ===================================================================== *)

(** ** Strings *)

Lemma string_app_cons (x : ascii) (a b : string) :
  String x a +:+ b = String x (a +:+ b).
Proof. reflexivity. Qed.

Lemma string_length_app (a b : string) :
  String.length (a +:+ b) = String.length a + String.length b.
Proof. induction a as [|c a IH]; simpl; [done|]. by rewrite IH. Qed.

Lemma string_eqb_true (a b : string) : String.eqb a b = true ↔ a = b.
Proof. apply String.eqb_eq. Qed.

Lemma string_eqb_false (a b : string) : String.eqb a b = false ↔ a ≠ b.
Proof. apply String.eqb_neq. Qed.

(** ** The candidates of [generateSlug] *)

Section Candidates.
Import Slug.

Lemma candidate_longer base k :
  String.length base < String.length (candidate base (S k)).
Proof.
  unfold candidate. rewrite !string_length_app. simpl. lia.
Qed.

Lemma candidate_inj base j k : candidate base j = candidate base k → j = k.
Proof.
  destruct j as [|j], k as [|k]; intros E; [done | | | ].
  - pose proof (candidate_longer base k) as L. rewrite <- E in L.
    simpl in L. lia.
  - pose proof (candidate_longer base j) as L. rewrite E in L.
    simpl in L. lia.
  - unfold candidate in E.
    apply (inj (String.app base)) in E.
    apply (inj (String.app "-")) in E.
    by apply (inj pretty) in E.
Qed.

End Candidates.

(** ** The probing loop *)

Section Loop.
Import Store Slug.
Variables (db : Db) (table : string) (excludeId : option string)
          (base : string).

Local Abbreviation taken := (Slug.taken db table excludeId base).

Lemma loop_step fuel k :
  probe_loop (S fuel) db table excludeId base (candidate base k) (S k) =
  if is_free (probe db table excludeId (S k) (candidate base k))
  then Some (candidate base k)
  else probe_loop fuel db table excludeId base (candidate base (S k)) (S (S k)).
Proof. done. Qed.

(** What a result of the loop means: the first candidate, from the one
    the loop starts with, that is not found taken. *)
Lemma loop_result fuel k s :
  probe_loop fuel db table excludeId base (candidate base k) (S k) = Some s →
  ∃ j, k ≤ j ∧ s = candidate base j ∧ ¬ taken j ∧
       ∀ i, k ≤ i < j → taken i.
Proof.
  revert k. induction fuel as [|fuel IH]; intros k E; [done|].
  rewrite loop_step in E.
  destruct (is_free _) eqn:F.
  - injection E as <-. exists k. repeat split; [lia | | intros; lia].
    unfold taken. congruence.
  - apply IH in E as (j & Hj & -> & Hfree & Hbefore).
    exists j. repeat split; [lia | done |].
    intros i Hi. destruct (decide (i = k)) as [->|]; [done|].
    apply Hbefore. lia.
Qed.

(** Conversely, with enough fuel the loop returns that candidate. *)
Lemma loop_finds fuel k j :
  k ≤ j → j - k < fuel → ¬ taken j → (∀ i, k ≤ i < j → taken i) →
  probe_loop fuel db table excludeId base (candidate base k) (S k)
  = Some (candidate base j).
Proof.
  revert k. induction fuel as [|fuel IH]; intros k Hk Hf Hfree Hbefore; [lia|].
  rewrite loop_step.
  destruct (decide (k = j)) as [->|Hne].
  - unfold taken in Hfree. by destruct (is_free _).
  - rewrite (Hbefore k) by lia.
    apply IH; [lia | lia | done |]. intros i Hi. apply Hbefore. lia.
Qed.

(** A taken candidate is the slug of a row of the table. *)
Lemma taken_in_table k :
  taken k →
  candidate base k ∈ slug <$> default [] (tables db !! table).
Proof.
  unfold taken, probe. destruct (probe_fails db _); [done|].
  destruct (tables db !! table) as [rows|]; [|done]. simpl.
  destruct (filter _ rows) as [|r [|??]] eqn:F; [done| |done].
  intros _.
  assert (r ∈ filter (λ r, selected excludeId (candidate base k) r = true) rows)
    as Hr by (rewrite F; apply list_elem_of_here).
  apply list_elem_of_filter in Hr as [Hsel Hin].
  unfold selected in Hsel. apply andb_true_iff in Hsel as [Hs _].
  apply string_eqb_true in Hs. rewrite <- Hs.
  by apply list_elem_of_fmap_2.
Qed.

(** The loop ends: the candidates are pairwise different, so at most as
    many of them are taken as the table has rows. *)
Lemma loop_terminates (l : list string) fuel k :
  (∀ j, k ≤ j → taken j → candidate base j ∈ l) →
  length l < fuel →
  ∃ j, k ≤ j ∧ j ≤ k + length l ∧
    probe_loop fuel db table excludeId base (candidate base k) (S k)
    = Some (candidate base j).
Proof.
  revert l k. induction fuel as [|fuel IH]; intros l k Hl Hlen; [lia|].
  rewrite loop_step.
  destruct (is_free _) eqn:F.
  - exists k. repeat split; lia.
  - assert (candidate base k ∈ l) as Hin by (apply Hl; [lia | done]).
    set (l' := filter (λ s, s ≠ candidate base k) l).
    assert (length l' < length l) as Hlt.
    { apply (length_filter_lt _ _ (candidate base k)); [done|]. by intros ?. }
    destruct (IH l' (S k)) as (j & Hj1 & Hj2 & E).
    + intros j Hj Htk. apply list_elem_of_filter. split.
      * intros Heq%candidate_inj. lia.
      * apply Hl; [lia | done].
    + lia.
    + exists j. repeat split; [lia | lia | done].
Qed.

Lemma loop_more_fuel fuel fuel' k s :
  probe_loop fuel db table excludeId base (candidate base k) (S k) = Some s →
  fuel ≤ fuel' →
  probe_loop fuel' db table excludeId base (candidate base k) (S k) = Some s.
Proof.
  revert fuel' k. induction fuel as [|fuel IH]; intros fuel' k E Hle; [done|].
  destruct fuel' as [|fuel']; [lia|].
  rewrite loop_step in *. destruct (is_free _); [done|].
  apply IH; [done | lia].
Qed.

End Loop.

(** [generateSlug] ends on every store, within one probe more than the
    table has rows. *)
Lemma generateSlug_terminates db title table excludeId fuel :
  length (default [] (Slug.tables db !! table)) < fuel →
  ∃ k, Slug.generateSlug fuel db title table excludeId
       = Some (Slug.candidate (Slug.baseSlug title) k).
Proof.
  intros Hfuel. unfold Slug.generateSlug.
  destruct (loop_terminates db table excludeId (Slug.baseSlug title)
              (Slug.slug <$> default [] (Slug.tables db !! table)) fuel 0)
    as (j & _ & _ & E).
  - intros j _. apply taken_in_table.
  - by rewrite length_fmap.
  - by exists j.
Qed.

(** ** Probes on a store that answers *)

Section AnsweringStore.
Import Store Slug.
Variables (db : Db) (table : string) (excludeId : option string)
          (rows : list Row).
Hypothesis Htable : tables db !! table = Some rows.
Hypothesis Hanswered : answered db.

Lemma probe_answered n s :
  probe db table excludeId n s = single (bearers db table excludeId s).
Proof. unfold probe, bearers. by rewrite Hanswered, Htable. Qed.

Lemma taken_bearers base k :
  slugs_unique db table excludeId →
  taken db table excludeId base k ↔
  bearers db table excludeId (candidate base k) ≠ [].
Proof.
  intros Huniq. unfold taken. rewrite probe_answered.
  pose proof (Huniq (candidate base k)) as Hlen.
  destruct (bearers _ _ _ _) as [|r [|r' l]]; simpl in *;
    [split; [done | by intros []] | split; done | lia].
Qed.

End AnsweringStore.

Section AddRow.
Import Slug.
Variables (db : Db) (table : string) (excludeId : option string) (r : Row).

Lemma add_row_table :
  tables (add_row db table r) !! table
  = Some (default [] (tables db !! table) ++ [r]).
Proof. unfold add_row. simpl. by rewrite lookup_insert_eq. Qed.

Lemma add_row_bearers s :
  bearers (add_row db table r) table excludeId s
  = bearers db table excludeId s
    ++ (if selected excludeId s r then [r] else []).
Proof.
  unfold bearers. rewrite add_row_table. simpl. rewrite filter_app.
  f_equal. rewrite filter_cons, filter_nil.
  destruct (selected excludeId s r); by case_decide.
Qed.

End AddRow.

(** On a store that answers and whose slugs are unique, [generateSlug]
    returns the first candidate that no row bears. *)
Lemma generateSlug_first_free db title table excludeId rows :
  Slug.tables db !! table = Some rows →
  Slug.answered db →
  Slug.slugs_unique db table excludeId →
  ∃ k,
    (∀ fuel, length rows < fuel →
       Slug.generateSlug fuel db title table excludeId
       = Some (Slug.candidate (Slug.baseSlug title) k)) ∧
    Slug.bearers db table excludeId (Slug.candidate (Slug.baseSlug title) k) = [] ∧
    (∀ j, j < k →
       Slug.bearers db table excludeId (Slug.candidate (Slug.baseSlug title) j) ≠ []).
Proof.
  intros Htable Hans Huniq.
  destruct (generateSlug_terminates db title table excludeId (S (length rows)))
    as [k E].
  { rewrite Htable. simpl. lia. }
  pose proof E as E'. unfold Slug.generateSlug in E'.
  apply (loop_result db table excludeId (Slug.baseSlug title) _ 0) in E'
    as (j & _ & Heq & Hfree & Hbefore).
  apply candidate_inj in Heq as <-.
  exists k. split; [|split].
  - intros fuel Hfuel. unfold Slug.generateSlug in *.
    apply (loop_more_fuel db table excludeId (Slug.baseSlug title)
             (S (length rows)) fuel 0); [exact E | lia].
  - rewrite (taken_bearers db table excludeId rows Htable Hans _ _ Huniq) in Hfree.
    by destruct (Slug.bearers _ _ _ _); [|destruct Hfree].
  - intros i Hi.
    apply (taken_bearers db table excludeId rows Htable Hans _ _ Huniq).
    apply Hbefore. lia.
Qed.

Lemma selected_new_row excludeId new_id s :
  excludeId ≠ Some new_id →
  Slug.selected excludeId s (Slug.mkRow new_id s) = true.
Proof.
  intros Hne. unfold Slug.selected. simpl. rewrite String.eqb_refl. simpl.
  destruct (Js.truthy excludeId) eqn:T; [|done].
  destruct excludeId as [e|]; [|done]. simpl.
  apply negb_true_iff, string_eqb_false. congruence.
Qed.



Lemma one_row_db_unique : Slug.slugs_unique Examples.one_row_db "posts" None.
Proof.
  intros s. unfold Slug.bearers. simpl.
  rewrite lookup_singleton_eq. simpl.
  rewrite filter_cons, filter_nil. case_decide; simpl; lia.
Defined.


(** ** Errors of the probe *)

Lemma is_free_error (r : Store.Reply Slug.Row) :
  Store.error r ≠ None ∨ Store.data r = None → Slug.is_free r = true.
Proof.
  unfold Slug.is_free. intros [H|H].
  - by destruct (Store.error r).
  - rewrite H. by destruct (Store.error r).
Qed.

(** C2: the code at the failing input.  On a store that cannot be reached
    the probe replies with the error [QueryFailed]; the candidate counts as
    free all the same, and [generateSlug] returns as unique the slug that a
    row of the table already bears.  The failed query is not told from
    "row not found". *)
Theorem generateSlug_accepts_failed_probe :
  Slug.probe Examples.unreachable_db "posts" None 1 "my-title"
    = Store.failed Store.QueryFailed ∧
  Slug.is_free (Slug.probe Examples.unreachable_db "posts" None 1 "my-title")
    = true ∧
  Slug.generateSlug 1 Examples.unreachable_db "My Title" "posts" None
    = Some "my-title" ∧
  Slug.bearers Examples.unreachable_db "posts" None "my-title"
    = [Examples.my_title_row].
Proof. by vm_compute. Qed.

(** The same on every store: when the candidates before the [k]-th are
    found taken and the probe of the [k]-th replies with an error, of
    whichever kind, or with no data, the [k]-th candidate is returned,
    whatever the table holds. *)
Lemma generateSlug_error_counts_as_free
    (db : Slug.Db) (title table : string) (excludeId : option string)
    (k fuel : nat) :
  (∀ i, i < k → Slug.taken db table excludeId (Slug.baseSlug title) i) →
  Store.error (Slug.probe db table excludeId (S k)
                 (Slug.candidate (Slug.baseSlug title) k)) ≠ None ∨
  Store.data (Slug.probe db table excludeId (S k)
                (Slug.candidate (Slug.baseSlug title) k)) = None →
  k < fuel →
  Slug.generateSlug fuel db title table excludeId
  = Some (Slug.candidate (Slug.baseSlug title) k).
Proof.
  intros Hbefore Herr Hfuel. unfold Slug.generateSlug.
  apply (loop_finds db table excludeId (Slug.baseSlug title) fuel 0 k).
  - lia.
  - lia.
  - unfold Slug.taken. by rewrite (is_free_error _ Herr).
  - intros i Hi. apply Hbefore. lia.
Qed.

(** ** The base slug *)

Lemma replace_runs_runs s :
  Slug.replace_runs false s
  = SlugSpec.join (SlugSpec.collapse_run <$> SlugSpec.runs s) ∧
  Slug.replace_runs true s
  = SlugSpec.join (SlugSpec.collapse_run <$>
      match SlugSpec.runs s with
      | (false, _) :: gs => gs
      | l => l
      end).
Proof.
  induction s as [|c s [IH1 IH2]]; [done|].
  simpl. rewrite IH1, IH2.
  destruct (Js.is_slug_char c), (SlugSpec.runs s) as [|[[] g] gs]; simpl;
    unfold SlugSpec.collapse_run; simpl; rewrite ?string_app_cons; done.
Qed.

Lemma baseSlug_normalize title : Slug.baseSlug title = SlugSpec.normalize title.
Proof.
  unfold Slug.baseSlug, SlugSpec.normalize, SlugSpec.trim_hyphens,
    SlugSpec.collapse.
  by rewrite (proj1 (replace_runs_runs _)).
Qed.

Lemma probe_free_when_unborne db table excludeId n s :
  (∀ r, r ∈ default [] (Slug.tables db !! table) → Slug.slug r ≠ s) →
  Slug.is_free (Slug.probe db table excludeId n s) = true.
Proof.
  intros Hno. unfold Slug.probe.
  destruct (Slug.probe_fails db n); [done|].
  destruct (Slug.tables db !! table) as [rows|]; [|done]. simpl in Hno.
  destruct (filter _ rows) as [|r l] eqn:F; [done|]. exfalso.
  assert (r ∈ filter (λ r, Slug.selected excludeId s r = true) rows) as Hr
    by (rewrite F; apply list_elem_of_here).
  apply list_elem_of_filter in Hr as [Hsel Hin].
  unfold Slug.selected in Hsel. apply andb_true_iff in Hsel as [Hs _].
  apply string_eqb_true in Hs. by apply (Hno r).
Qed.



(** ** The paginated query *)

Section PageQuery.
Import Store Posts.

Lemma result_set_length q tbl :
  length (result_set q tbl) = length (filter (λ p, matches q p = true) tbl).
Proof. unfold result_set. by rewrite merge_sort_Permutation. Qed.

Lemma result_set_elem (q : Query) (tbl : list Post) (p : Post) :
  p ∈ result_set q tbl ↔ (matches q p = true) ∧ (p ∈ tbl).
Proof.
  unfold result_set. rewrite merge_sort_Permutation.
  by rewrite list_elem_of_filter.
Qed.

Lemma rows_in_range_lookup from to (l : list Post) (i : nat) :
  (0 ≤ from)%Z → (from ≤ to)%Z →
  rows_in_range from to l !! i =
  if decide (Z.of_nat i < to - from + 1)%Z
  then l !! (Z.to_nat from + i) else None.
Proof.
  intros H0 Hle. unfold rows_in_range. case_decide.
  - rewrite lookup_take_lt by lia. apply lookup_drop.
  - apply lookup_take_ge. lia.
Qed.

Lemma rows_in_range_elem from to (l : list Post) (p : Post) :
  p ∈ rows_in_range from to l → p ∈ l.
Proof. unfold rows_in_range. by intros H%subseteq_take%subseteq_drop. Qed.

Lemma build_query_range o :
  range_from (build_query o)
    = ((default 1 (o_page o) - 1) * default 12 (o_pageSize o))%Z ∧
  range_to (build_query o)
    = (default 1 (o_page o) * default 12 (o_pageSize o) - 1)%Z.
Proof. unfold build_query. simpl. split; lia. Qed.

Lemma ceil_div_spec count ps :
  (0 ≤ count)%Z → (1 ≤ ps)%Z →
  ∃ n, ceil_div count ps = Num n ∧ ((n - 1) * ps < count ≤ n * ps)%Z.
Proof.
  intros Hc Hps. unfold ceil_div.
  destruct (Z.eqb_spec ps 0) as [->|_]; [lia|].
  eexists. split; [done|].
  pose proof (Z.div_mod (- count) ps ltac:(lia)).
  pose proof (Z.mod_pos_bound (- count) ps ltac:(lia)).
  nia.
Qed.

(** What [getPaginatedPosts] returns when the store answers a range
    [0 <= from <= to]. *)
Lemma getPaginatedPosts_answered tbl o :
  (0 ≤ range_from (build_query o))%Z →
  (range_from (build_query o) ≤ range_to (build_query o))%Z →
  getPaginatedPosts (store_of Answered tbl) o =
  let rs := result_set (build_query o) tbl in
  mkPage (rows_in_range (range_from (build_query o))
                        (range_to (build_query o)) rs)
         (Z.of_nat (length rs))
         (default 1%Z (o_page o)) (default 12%Z (o_pageSize o))
         (ceil_div (Z.of_nat (length rs)) (default 12%Z (o_pageSize o))).
Proof.
  intros H0 Hle. unfold getPaginatedPosts, store_of, answer.
  assert ((0 <=? range_from (build_query o))%Z
          && (range_from (build_query o) <=? range_to (build_query o))%Z
          = true) as ->; [|done].
  apply andb_true_iff. split; by apply Z.leb_le.
Qed.

End PageQuery.



(** C5: whatever the input and the store, if the read replies with an error
    or throws, [getPaginatedPosts] returns [{posts: [], total: 0,
    totalPages: 0}] with the requested page and pageSize, and no error
    reaches the caller; for pageSize other than 0 this is the very value
    returned when the store answers with no rows. *)
Theorem getPaginatedPosts_failure
    (store : Posts.ListStore) (o : Posts.Options) :
  (store (Posts.build_query o) = None ∨
   ∃ r e, store (Posts.build_query o) = Some r ∧ Posts.l_error r = Some e) →
  Posts.getPaginatedPosts store o
  = Posts.mkPage [] 0 (default 1%Z (Posts.o_page o))
                 (default 12%Z (Posts.o_pageSize o)) (Posts.Num 0) ∧
  ∀ store',
    store' (Posts.build_query o)
      = Some (Posts.mkListReply (Some []) None (Some 0)) →
    default 12%Z (Posts.o_pageSize o) ≠ 0%Z →
    Posts.getPaginatedPosts store' o = Posts.getPaginatedPosts store o.
Proof.
  intros Hfail.
  assert (Posts.getPaginatedPosts store o = Posts.empty_page o) as E.
  { unfold Posts.getPaginatedPosts.
    destruct Hfail as [-> | (r & e & -> & ->)]; done. }
  split; [by rewrite E|].
  intros store' Hempty Hps. rewrite E.
  unfold Posts.getPaginatedPosts. rewrite Hempty. simpl.
  unfold Posts.empty_page, Posts.ceil_div. simpl.
  by destruct (Z.eqb_spec (default 12%Z (Posts.o_pageSize o)) 0).
Qed.

Lemma getPaginatedPosts_failure_witness :
  Posts.getPaginatedPosts (Posts.store_of Store.Errored Examples.posts25)
    Examples.page2_of_10
  = Posts.mkPage [] 0 2 10 (Posts.Num 0) ∧
  Posts.getPaginatedPosts (Posts.store_of Store.Thrown Examples.posts25)
    Examples.page2_of_10
  = Posts.mkPage [] 0 2 10 (Posts.Num 0).
Proof.
  split.
  - refine (proj1 (getPaginatedPosts_failure
                     (Posts.store_of Store.Errored Examples.posts25)
                     Examples.page2_of_10 _)).
    right.
    exists (Posts.mkListReply None (Some Store.QueryFailed) None),
           Store.QueryFailed.
    split; reflexivity.
  - refine (proj1 (getPaginatedPosts_failure
                     (Posts.store_of Store.Thrown Examples.posts25)
                     Examples.page2_of_10 _)).
    left. reflexivity.
Defined.

(** ** [ILIKE] and substrings *)

Section Ilike.
Import Posts.

Lemma toLowerCase_app a b :
  Js.toLowerCase (a +:+ b) = Js.toLowerCase a +:+ Js.toLowerCase b.
Proof.
  induction a as [|c a IH]; [done|].
  rewrite string_app_cons. simpl. rewrite IH. by rewrite string_app_cons.
Qed.

Lemma tokens_plain s rest :
  wildcard_free s = true → tokens (s +:+ rest) = lits s ++ tokens rest.
Proof.
  induction s as [|c s IH]; [done|].
  rewrite string_app_cons.
  unfold wildcard_free. simpl. intros [Hc Hs]%andb_true_iff.
  apply negb_true_iff in Hc.
  apply orb_false_iff in Hc as [Hc Hb]. apply orb_false_iff in Hc as [Hp Hu].
  rewrite Hp, Hu, Hb. f_equal. by apply IH.
Qed.

Lemma like_any_seq_unfold ts text :
  like (AnySeq :: ts) text =
  like ts text || match text with
                  | String _ t' => like (AnySeq :: ts) t'
                  | "" => false
                  end.
Proof. by destruct text. Qed.

Lemma like_any_seq ts text :
  like (AnySeq :: ts) text = true →
  ∃ pre t, text = pre +:+ t ∧ like ts t = true.
Proof.
  induction text as [|c text IH]; rewrite like_any_seq_unfold.
  - rewrite orb_false_r. intros H. by exists "", "".
  - intros [H|H]%orb_true_iff.
    + by exists "", (String c text).
    + destruct (IH H) as (pre & t & -> & Ht).
      by exists (String c pre), t.
Qed.

Lemma like_lits s ts text :
  like (lits s ++ ts) text = true →
  ∃ mid t, text = mid +:+ t ∧ Js.toLowerCase mid = Js.toLowerCase s
           ∧ like ts t = true.
Proof.
  revert text. induction s as [|c s IH]; intros text; simpl.
  - intros H. by exists "", text.
  - destruct text as [|d text]; [done|].
    intros [Hc H]%andb_true_iff.
    destruct (IH _ H) as (mid & t & -> & Hmid & Ht).
    exists (String d mid), t. repeat split; [| done].
    simpl. unfold ci_eqb in Hc. apply Ascii.eqb_eq in Hc.
    by rewrite Hmid, Hc.
Qed.

(** Without wildcards in [s], the pattern [%s%] matches only texts in
    which [s] occurs, case ignored. *)
Lemma like_substring s text :
  wildcard_free s = true →
  like (tokens (search_pattern s)) text = true → ci_substring s text.
Proof.
  intros Hs. unfold search_pattern.
  change ("%" +:+ s +:+ "%") with (String "%" (s +:+ "%")).
  cbn [tokens]. change (is_percent "%") with true. cbn iota.
  rewrite (tokens_plain s "%" Hs).
  intros (pre & t & -> & H)%like_any_seq.
  apply like_lits in H as (mid & post & -> & Hmid & _).
  exists (Js.toLowerCase pre), (Js.toLowerCase post).
  by rewrite !toLowerCase_app, Hmid.
Qed.

Lemma ilike_substring s v :
  wildcard_free s = true →
  ilike v (search_pattern s) = true → ci_substring_opt s v.
Proof. destruct v; [apply like_substring | done]. Qed.

(** The posts a page holds are rows of the table that pass every filter
    of the query. *)
Lemma page_posts_match fault (tbl : list Post) o (p : Post) :
  p ∈ posts (getPaginatedPosts (store_of fault tbl) o) →
  (p ∈ tbl) ∧ (matches (build_query o) p = true).
Proof.
  unfold getPaginatedPosts, store_of.
  destruct fault; simpl; [|by intros ?%elem_of_nil..].
  unfold answer. destruct (_ && _); simpl; [|by intros ?%elem_of_nil].
  intros Hp%rows_in_range_elem%result_set_elem. tauto.
Qed.

End Ilike.

Lemma truthy_Some s : s ≠ "" → Js.truthy (Some s) = true.
Proof. intros H. simpl. by apply negb_true_iff, string_eqb_false. Qed.




(** ** Deleting a comment *)

(** C7: [deleteComment] returns true for an admin, whoever owns the
    comment, when the comment is found and the delete succeeds; for a user
    who is neither admin nor the comment's author it returns false and
    leaves the table as it was; and it returns the same false, with the
    table as it was, when the comment is not found. *)
Theorem deleteComment_authorization
    (tbl : list Comments.Comment) (commentId userId userRole : string) :
  (∀ c, userRole = "admin" →
        Comments.fetch tbl commentId = Store.ok c →
        Comments.deleteComment Store.Answered Store.Answered tbl
          commentId userId userRole
        = (true, Comments.delete_by_id tbl commentId)) ∧
  (∀ on_fetch on_delete c,
        userRole ≠ "admin" →
        Comments.fetch tbl commentId = Store.ok c →
        Comments.user_id c ≠ userId →
        Comments.deleteComment on_fetch on_delete tbl commentId userId userRole
        = (false, tbl)) ∧
  (∀ on_fetch on_delete,
        Store.data (Comments.fetch tbl commentId) = None →
        Comments.deleteComment on_fetch on_delete tbl commentId userId userRole
        = (false, tbl)).
Proof.
  split; [|split].
  - intros c -> Hc. unfold Comments.deleteComment. by rewrite Hc.
  - intros on_fetch on_delete c Hrole Hc Howner.
    unfold Comments.deleteComment. rewrite Hc. simpl.
    apply string_eqb_false in Hrole, Howner. rewrite Hrole, Howner.
    by destruct on_fetch.
  - intros on_fetch on_delete Hnone.
    unfold Comments.deleteComment. rewrite Hnone.
    by destruct on_fetch, (Store.error (Comments.fetch tbl commentId)).
Qed.

Lemma deleteComment_authorization_witness :
  Comments.deleteComment Store.Answered Store.Answered Examples.comments
    "c1" "root" "admin"
  = (true, [Examples.comment_of_bob]) ∧
  Comments.deleteComment Store.Answered Store.Answered Examples.comments
    "c1" "bob" "reader"
  = (false, Examples.comments) ∧
  Comments.deleteComment Store.Answered Store.Answered Examples.comments
    "c9" "bob" "reader"
  = (false, Examples.comments).
Proof.
  destruct (deleteComment_authorization Examples.comments "c1" "root" "admin")
    as (Hadmin & _ & _).
  destruct (deleteComment_authorization Examples.comments "c1" "bob" "reader")
    as (_ & Hother & _).
  destruct (deleteComment_authorization Examples.comments "c9" "bob" "reader")
    as (_ & _ & Hmissing).
  split; [|split].
  - apply (Hadmin Examples.comment_of_ann); reflexivity.
  - apply (Hother Store.Answered Store.Answered Examples.comment_of_ann).
    + discriminate.
    + reflexivity.
    + discriminate.
  - apply Hmissing. reflexivity.
Defined.

(** ** Login and registration *)

(** C8: two login requests that pass validation and fail, one because no
    user has the email, the other because the password does not match the
    stored hash, get the same response: status 401 with the error
    "Invalid email or password". *)
Theorem login_failures_alike
    (compare : string → string → bool) (generateToken : Auth.Claims → string)
    (users1 users2 : list Auth.User)
    (req1 req2 : Validation.LoginData) (u : Auth.User) :
  Validation.validateLogin req1 = Validation.Valid →
  Validation.validateLogin req2 = Validation.Valid →
  (∀ v, v ∈ users1 →
        Auth.email v ≠ default "" (Validation.login_email req1)) →
  Auth.find_by_email users2 (default "" (Validation.login_email req2))
    = Store.ok u →
  compare (default "" (Validation.login_password req2)) (Auth.password u)
    = false →
  LoginRoute.POST compare generateToken Store.Answered users1 req1
    = Auth.mkResponse 401 (Auth.Failure "Invalid email or password") ∧
  LoginRoute.POST compare generateToken Store.Answered users2 req2
    = LoginRoute.POST compare generateToken Store.Answered users1 req1.
Proof.
  intros Hv1 Hv2 Hnone Hfound Hwrong.
  assert (LoginRoute.POST compare generateToken Store.Answered users1 req1
          = Auth.mkResponse 401 (Auth.Failure "Invalid email or password"))
    as E1.
  { unfold LoginRoute.POST. rewrite Hv1. simpl. unfold Auth.find_by_email.
    destruct (filter _ users1) as [|v l] eqn:F; [done|]. exfalso.
    assert (v ∈ filter (λ u, String.eqb (Auth.email u)
                               (default "" (Validation.login_email req1)) = true)
                       users1) as Hin by (rewrite F; apply list_elem_of_here).
    apply list_elem_of_filter in Hin as [He Hin].
    apply string_eqb_true in He. by apply (Hnone v). }
  split; [done|]. rewrite E1.
  unfold LoginRoute.POST. rewrite Hv2. simpl. rewrite Hfound. simpl.
  by rewrite Hwrong.
Qed.

Lemma login_failures_alike_witness :
  LoginRoute.POST (Examples.compare_with "secret" "hash-of-ann") Examples.token_of
    Store.Answered [Examples.ann] Examples.login_of_nobody
    = Auth.mkResponse 401 (Auth.Failure "Invalid email or password") ∧
  LoginRoute.POST (Examples.compare_with "secret" "hash-of-ann") Examples.token_of
    Store.Answered [Examples.ann] Examples.login_of_ann
    = LoginRoute.POST (Examples.compare_with "secret" "hash-of-ann") Examples.token_of
        Store.Answered [Examples.ann] Examples.login_of_nobody.
Proof.
  apply (login_failures_alike (Examples.compare_with "secret" "hash-of-ann")
           Examples.token_of [Examples.ann] [Examples.ann]
           Examples.login_of_nobody Examples.login_of_ann Examples.ann).
  - reflexivity.
  - reflexivity.
  - intros v Hv. apply list_elem_of_singleton in Hv. subst v.
    vm_compute. discriminate.
  - reflexivity.
  - reflexivity.
Defined.

Lemma includes_elem l s : Js.includes l s = true ↔ s ∈ l.
Proof.
  unfold Js.includes. induction l as [|x l IH]; simpl.
  - split; [done | by intros ?%elem_of_nil].
  - rewrite orb_true_iff, IH, elem_of_cons, string_eqb_true. done.
Qed.

(** The role is the last thing [validateRegistration] looks at. *)
Lemma validateRegistration_role n e pw role :
  Validation.validateRegistration (Validation.mkRegistration n e pw role)
  = match Validation.validateRegistration
            (Validation.mkRegistration n e pw None) with
    | Validation.Invalid err => Validation.Invalid err
    | Validation.Valid =>
        if Js.truthy role
           && negb (Js.includes Validation.validRoles (default "" role))
        then Validation.Invalid "Invalid role specified"
        else Validation.Valid
    end.
Proof.
  unfold Validation.validateRegistration.
  cbn [Validation.reg_name Validation.reg_email Validation.reg_password
       Validation.reg_role].
  destruct (Validation.blank n); [done|].
  destruct (_ <? _)%nat; [done|].
  destruct (_ || _); [done|].
  by destruct (Validation.isValidPassword pw).
Qed.

(** C10: a registration that passes validation with its role absent (or
    falsy) is inserted with the role "reader"; [validateRegistration]
    accepts an absent role wherever it accepts a valid one, and rejects
    every non-empty role outside admin, author, reader. *)
Theorem register_default_role
    (hash : string → string) (generateToken : Auth.Claims → string)
    (new_id now : string) (users : list Auth.User)
    (req : Validation.RegistrationData)
    (n e pw : option string) (r : string) :
  (Validation.validateRegistration req = Validation.Valid →
   Js.truthy (Validation.reg_role req) = false →
   Auth.role (RegisterRoute.new_user hash new_id now req) = "reader" ∧
   ∀ on_find on_insert resp users',
     RegisterRoute.POST hash generateToken on_find on_insert new_id now users req
       = (resp, users') →
     Auth.http_status resp = 201 →
     users' = users ++ [RegisterRoute.new_user hash new_id now req]) ∧
  (Validation.validateRegistration
     (Validation.mkRegistration n e pw (Some "reader")) = Validation.Valid →
   Validation.validateRegistration
     (Validation.mkRegistration n e pw None) = Validation.Valid) ∧
  (r ≠ "" → r ∉ Validation.validRoles →
   Validation.validateRegistration
     (Validation.mkRegistration n e pw (Some r)) ≠ Validation.Valid ∧
   (Validation.validateRegistration
      (Validation.mkRegistration n e pw None) = Validation.Valid →
    Validation.validateRegistration
      (Validation.mkRegistration n e pw (Some r))
    = Validation.Invalid "Invalid role specified")).
Proof.
  split; [|split].
  - intros Hvalid Hrole. split.
    + unfold RegisterRoute.new_user. simpl.
      destruct (Validation.reg_role req) as [x|]; [|done].
      simpl in Hrole. apply negb_false_iff in Hrole. simpl. by rewrite Hrole.
    + intros on_find on_insert resp users'. unfold RegisterRoute.POST.
      rewrite Hvalid.
      destruct (Auth.reply_under on_find _) as [rep|];
        [|by intros [= <- <-]].
      destruct (Store.data rep); [by intros [= <- <-]|].
      destruct on_insert; by intros [= <- <-].
  - rewrite (validateRegistration_role n e pw (Some "reader")).
    by destruct (Validation.validateRegistration _).
  - intros Hne Hout.
    rewrite (validateRegistration_role n e pw (Some r)).
    assert (Js.truthy (Some r)
            && negb (Js.includes Validation.validRoles (default "" (Some r)))
            = true) as ->.
    { rewrite (truthy_Some r Hne).
      change (default "" (Some r)) with r.
      destruct (Js.includes Validation.validRoles r) eqn:Hin; [|done].
      by apply includes_elem in Hin. }
    split.
    + by destruct (Validation.validateRegistration _).
    + by intros ->.
Qed.

Lemma register_default_role_witness :
  Validation.validateRegistration Examples.registration_of_bob
    = Validation.Valid ∧
  Auth.role (RegisterRoute.new_user (λ p, "hash:" +:+ p) "bob" Examples.noon
               Examples.registration_of_bob) = "reader" ∧
  RegisterRoute.POST (λ p, "hash:" +:+ p) Examples.token_of
    Store.Answered Store.Answered "bob" Examples.noon [Examples.ann]
    Examples.registration_of_bob
  = (Auth.mkResponse 201
       (Auth.Success
          (Auth.withoutPassword
             (RegisterRoute.new_user (λ p, "hash:" +:+ p) "bob" Examples.noon
                Examples.registration_of_bob))
          "token:bob" "User registered successfully"),
     [Examples.ann;
      RegisterRoute.new_user (λ p, "hash:" +:+ p) "bob" Examples.noon
        Examples.registration_of_bob]) ∧
  Validation.validateRegistration
    (Validation.mkRegistration (Some "Bob") (Some "bob@example.org")
       (Some "secret1") (Some "owner"))
  = Validation.Invalid "Invalid role specified".
Proof.
  destruct (register_default_role (λ p, "hash:" +:+ p) Examples.token_of
              "bob" Examples.noon [Examples.ann] Examples.registration_of_bob
              (Some "Bob") (Some "bob@example.org") (Some "secret1") "owner")
    as (Hdefault & _ & Hreject).
  split; [reflexivity|]. split; [|split].
  - apply Hdefault; reflexivity.
  - reflexivity.
  - apply Hreject.
    + discriminate.
    + intros Hin. vm_compute in Hin.
      repeat (apply elem_of_cons in Hin as [Hin|Hin]; [discriminate|]).
      by apply elem_of_nil in Hin.
    + reflexivity.
Defined.

(** ** The post routes and [published_at] *)

Section PublishedAt.
Import Store Validation Routes.

Lemma POST_effect env req db resp db' :
  POST env req db = Some (resp, db') →
  db' = db ∨
  ∃ author s,
    posts db' = <[new_id env := new_post env author s (req_body req)]> (posts db).
Proof.
  unfold POST. intros H.
  destruct (authenticate env req) as [decoded|]; [|left; congruence].
  destruct (_ && _); [left; congruence|].
  destruct (validatePost _); [|left; congruence].
  destruct (Slug.generateSlug _ _ _ _ _) as [s|]; [|done]. simpl in H.
  destruct (on_write env); [|left; congruence..].
  destruct (posts db !! new_id env); [left; congruence|].
  injection H as _ <-. right. by exists decoded, s.
Qed.

Lemma rows_lookup db (p : Post) :
  p ∈ rows db → ∃ k, posts db !! k = Some p.
Proof.
  unfold rows. intros ([k q] & -> & Hin)%list_elem_of_fmap.
  exists k. by apply elem_of_map_to_list.
Qed.

Lemma single_ok_elem {A} (l : list A) (x : A) :
  data (single l) = Some x → x ∈ l.
Proof.
  destruct l as [|y [|z l]]; simpl; [done| |done].
  intros [= ->]. apply list_elem_of_here.
Qed.

Lemma PUT_effect env s req db resp db' :
  PUT env s req db = Some (resp, db') →
  db' = db ∨
  ∃ existing new_slug,
    existing ∈ rows db ∧
    posts db'
    = <[id existing :=
          apply_update (update_data env existing (req_body req) new_slug)
                       existing]> (posts db).
Proof.
  unfold PUT. intros H.
  destruct (authenticate env req) as [decoded|]; [|left; congruence].
  destruct (Auth.reply_under _ _) as [r|] eqn:Hr; [|left; congruence].
  destruct (error r) eqn:Herr; [left; congruence|].
  destruct (data r) as [existing|] eqn:Hdata; [|left; congruence].
  destruct (_ && _); [left; congruence|].
  destruct (reslug _ _ _ _) as [new_slug|]; [|done]. simpl in H.
  destruct (on_write env); [|left; congruence..].
  injection H as _ <-. right. exists existing, new_slug. split; [|done].
  unfold Auth.reply_under in Hr.
  destruct (on_fetch env); simplify_eq/=.
  unfold find_by_slug in Hdata.
  apply single_ok_elem, list_elem_of_filter in Hdata. tauto.
Qed.

Lemma new_post_dated env author s b :
  published_at (new_post env author s b) ≠ None ↔
  status (new_post env author s b) = "published".
Proof.
  unfold new_post. simpl.
  destruct (pd_status b) as [st|]; simpl; [|done].
  destruct (String.eqb_spec st "published") as [->|Hne]; [done|].
  destruct (String.eqb_spec st "") as [->|_]; [done|]. done.
Qed.

(** What an update does to [published_at]. *)
Lemma update_published_at env existing b new_slug :
  published_at (apply_update (update_data env existing b new_slug) existing)
  = match pd_status b with
    | Some st =>
        if String.eqb st "published" &&
           negb (String.eqb (status existing) "published")
        then Some (now env) else published_at existing
    | None => published_at existing
    end.
Proof.
  unfold apply_update, update_data. simpl.
  destruct (pd_status b) as [st|]; [|done]. by destruct (_ && _).
Qed.

Lemma update_status env existing b new_slug :
  status (apply_update (update_data env existing b new_slug) existing)
  = default (status existing) (pd_status b).
Proof. done. Qed.

Lemma update_dated env existing b new_slug :
  dated existing →
  dated (apply_update (update_data env existing b new_slug) existing).
Proof.
  unfold dated. rewrite update_published_at, update_status.
  intros Hold Hnew. destruct (pd_status b) as [st|]; simpl in Hnew.
  - subst st. simpl.
    destruct (String.eqb_spec (status existing) "published"); simpl; auto.
  - auto.
Qed.

(** With fuel for one probe more than the relation has rows, the two
    handlers return. *)
Lemma slug_db_terminates env db title excludeId :
  length (rows db) < slug_fuel env →
  is_Some (Slug.generateSlug (slug_fuel env) (slug_db env db) title "posts"
             excludeId).
Proof.
  intros Hfuel.
  destruct (generateSlug_terminates (slug_db env db) title "posts" excludeId
              (slug_fuel env)) as [k E]; [|by rewrite E].
  unfold slug_db. simpl. rewrite lookup_singleton_eq. simpl.
  by rewrite length_fmap.
Qed.

Lemma POST_returns env req db :
  length (rows db) < slug_fuel env → is_Some (POST env req db).
Proof.
  intros Hfuel. unfold POST.
  destruct (authenticate env req) as [decoded|]; [|done].
  destruct (_ && _); [done|].
  destruct (validatePost _); [|done].
  destruct (slug_db_terminates env db
              (default "" (pd_title (req_body req))) None Hfuel) as [s ->].
  simpl. destruct (on_write env); [|done..].
  by destruct (posts db !! new_id env).
Qed.

Lemma PUT_returns env slug_param req db :
  length (rows db) < slug_fuel env → is_Some (PUT env slug_param req db).
Proof.
  intros Hfuel. unfold PUT.
  destruct (authenticate env req) as [decoded|]; [|done].
  destruct (Auth.reply_under _ _) as [r|]; [|done].
  destruct (error r); [done|].
  destruct (data r) as [existing|]; [|done].
  destruct (_ && _); [done|].
  unfold reslug. destruct (_ && _).
  - destruct (slug_db_terminates env db
                (default "" (pd_title (req_body req)))
                (Some (id existing)) Hfuel) as [s ->].
    simpl. by destruct (on_write env).
  - simpl. by destruct (on_write env).
Qed.

(** The rows are stored under their [id]. *)
Lemma reachable_keys db :
  reachable db → ∀ k p, posts db !! k = Some p → id p = k.
Proof.
  induction 1 as [|env req db resp db' _ IH HPOST
                  |env s req db resp db' _ IH HPUT]; intros k p Hp.
  - unfold empty_db in Hp. simpl in Hp. by rewrite lookup_empty in Hp.
  - apply POST_effect in HPOST as [->|(author & sl & E)]; [by eapply IH|].
    rewrite E in Hp. apply lookup_insert_Some in Hp as [[<- <-]|[_ Hp]];
      [done | by eapply IH].
  - apply PUT_effect in HPUT as [->|(existing & sl & Hin & E)];
      [by eapply IH|].
    rewrite E in Hp. apply lookup_insert_Some in Hp as [[<- <-]|[_ Hp]];
      [done | by eapply IH].
Qed.

Lemma reachable_dated db :
  reachable db → ∀ k p, posts db !! k = Some p → dated p.
Proof.
  induction 1 as [|env req db resp db' _ IH HPOST
                  |env s req db resp db' _ IH HPUT]; intros k p Hp.
  - unfold empty_db in Hp. simpl in Hp. by rewrite lookup_empty in Hp.
  - apply POST_effect in HPOST as [->|(author & sl & E)]; [by eapply IH|].
    rewrite E in Hp. apply lookup_insert_Some in Hp as [[_ <-]|[_ Hp]].
    + intros ?. by apply new_post_dated.
    + by eapply IH.
  - apply PUT_effect in HPUT as [->|(existing & sl & Hin & E)];
      [by eapply IH|].
    rewrite E in Hp. apply lookup_insert_Some in Hp as [[_ <-]|[_ Hp]].
    + apply update_dated. apply rows_lookup in Hin as [k' Hk'].
      by eapply IH.
    + by eapply IH.
Qed.

End PublishedAt.

Lemma created_db_reachable : Routes.reachable Examples.created_db.
Proof.
  apply (Routes.reach_POST (Examples.request_env Examples.noon "p1")
           Examples.create_published Routes.empty_db
           (Routes.mkResponse 201
              (Routes.Success Examples.created_post
                 "Post created successfully"))).
  - apply Routes.reach_empty.
  - by vm_compute.
Qed.

Lemma unpublished_db_reachable : Routes.reachable Examples.unpublished_db.
Proof.
  apply (Routes.reach_PUT
           (Examples.request_env "2024-06-01T08:00:00.000Z" "p2")
           "hello-world" Examples.unpublish Examples.created_db
           (Routes.mkResponse 200
              (Routes.Success Examples.unpublished_post
                 "Post updated successfully"))).
  - apply created_db_reachable.
  - by vm_compute.
Qed.

(** Two posts titled "Hello World" get the slugs hello-world and
    hello-world-1. *)
Example second_post_gets_suffix :
  Examples.slug_of "p1" Examples.after_second_create = Some "hello-world" ∧
  Examples.slug_of "p2" Examples.after_second_create = Some "hello-world-1".
Proof. by vm_compute. Qed.

(** C4 (as stated) fails: a post created as published and then set back to
    draft keeps its [published_at], so a reachable state holds a draft with
    a publication time. *)
Lemma published_at_unpublish_counterexample :
  Routes.reachable Examples.unpublished_db ∧
  Routes.posts Examples.unpublished_db !! "p1" = Some Examples.unpublished_post ∧
  Posts.status Examples.unpublished_post = "draft" ∧
  Posts.published_at Examples.unpublished_post = Some Examples.noon ∧
  ¬ (∀ db k p, Routes.reachable db → Routes.posts db !! k = Some p →
       (Posts.published_at p ≠ None ↔ Posts.status p = "published")).
Proof.
  assert (Routes.posts Examples.unpublished_db !! "p1"
          = Some Examples.unpublished_post) as Hp by (by vm_compute).
  split; [apply unpublished_db_reachable|].
  split; [done|]. split; [done|]. split; [done|].
  intros Hiff.
  destruct (Hiff _ _ _ unpublished_db_reachable Hp) as [Hto _].
  by specialize (Hto ltac:(done)).
Qed.

(** C4 (as amended): in every state the create and update handlers can
    reach, a post whose status is published has a non-null published_at
    (the converse does not hold: setting a post back to draft keeps its
    published_at).  A created post has a non-null published_at exactly when
    it is created as published.  An update writes published_at exactly when
    it asks for the status published and the stored status is not published:
    updating a draft to published sets published_at to the time of the
    update, and an update of an already-published post leaves published_at
    as it was. *)
Theorem published_at_on_create_and_update
    (db : Routes.Db) (k : string) (p : Posts.Post)
    (env : Routes.Env) (author : Auth.Claims) (s : string)
    (b : Validation.PostData) (existing : Posts.Post)
    (new_slug : option string) :
  (Routes.reachable db → Routes.posts db !! k = Some p →
   Posts.status p = "published" → Posts.published_at p ≠ None) ∧
  (Posts.published_at (Routes.new_post env author s b) ≠ None ↔
   Posts.status (Routes.new_post env author s b) = "published") ∧
  (Validation.pd_status b = Some "published" →
   Posts.status existing ≠ "published" →
   Posts.published_at
     (Routes.apply_update (Routes.update_data env existing b new_slug) existing)
   = Some (Routes.now env)) ∧
  (Posts.status existing = "published" →
   Posts.published_at
     (Routes.apply_update (Routes.update_data env existing b new_slug) existing)
   = Posts.published_at existing) ∧
  (Validation.pd_status b ≠ Some "published" →
   Posts.published_at
     (Routes.apply_update (Routes.update_data env existing b new_slug) existing)
   = Posts.published_at existing) ∧
  (∀ slug_param req resp db',
     Routes.PUT env slug_param req db = Some (resp, db') →
     db' = db ∨
     ∃ stored reslugged,
       stored ∈ Routes.rows db ∧
       Routes.posts db'
       = <[Posts.id stored :=
             Routes.apply_update
               (Routes.update_data env stored (Routes.req_body req) reslugged)
               stored]> (Routes.posts db)) ∧
  (∀ req resp db',
     Routes.POST env req db = Some (resp, db') →
     db' = db ∨
     ∃ creator generated,
       Routes.posts db'
       = <[Routes.new_id env :=
             Routes.new_post env creator generated (Routes.req_body req)]>
           (Routes.posts db)).
Proof.
  split; [|split; [|split; [|split; [|split; [|split]]]]].
  - intros Hreach Hp. by apply (reachable_dated db Hreach k p).
  - apply new_post_dated.
  - intros Hb Hold. rewrite update_published_at, Hb. simpl.
    apply string_eqb_false in Hold. by rewrite Hold.
  - intros Hold. rewrite update_published_at, Hold.
    destruct (Validation.pd_status b); [|done].
    by rewrite andb_false_r.
  - intros Hb. rewrite update_published_at.
    destruct (Validation.pd_status b) as [st|]; [|done].
    destruct (String.eqb_spec st "published") as [->|_]; [done|done].
  - intros slug_param req resp db'. apply PUT_effect.
  - intros req resp db'. apply POST_effect.
Qed.

Lemma published_at_on_create_and_update_witness :
  Posts.published_at Examples.created_post ≠ None ∧
  Posts.published_at
    (Routes.apply_update
       (Routes.update_data (Examples.request_env Examples.noon "p2")
          Examples.unpublished_post
          (Validation.mkPostData None None None None None
             (Some "published") None) None)
       Examples.unpublished_post)
  = Some Examples.noon.
Proof.
  destruct (published_at_on_create_and_update Examples.created_db "p1"
              Examples.created_post
              (Examples.request_env Examples.noon "p2")
              (Auth.mkClaims "ann" "ann@example.org" "author") "hello-world"
              (Validation.mkPostData None None None None None
                 (Some "published") None)
              Examples.unpublished_post None)
    as (Hdated & _ & Hpublish & _).
  split.
  - apply Hdated.
    + exact created_db_reachable.
    + vm_compute. reflexivity.
    + reflexivity.
  - apply Hpublish.
    + reflexivity.
    + discriminate.
Defined.

(* ===================================================================== *)
(** * Further properties of the code *)
(* ===================================================================== *)

(** ** The token of a request *)

Lemma startsWith_app prefix rest : Routes.startsWith prefix (prefix +:+ rest) = true.
Proof.
  induction prefix as [|c p IH]; [by destruct rest|].
  rewrite string_app_cons. simpl. by rewrite Ascii.eqb_refl, IH.
Qed.

Lemma startsWith_split prefix s :
  Routes.startsWith prefix s = true →
  s = prefix +:+ Routes.substring_from (String.length prefix) s.
Proof.
  revert s. induction prefix as [|c p IH]; intros s; [done|].
  destruct s as [|d s]; [done|]. simpl.
  intros [Hc Hp]%andb_true_iff. apply Ascii.eqb_eq in Hc as ->.
  rewrite string_app_cons. f_equal. by apply IH.
Qed.

Lemma substring_from_app prefix rest :
  Routes.substring_from (String.length prefix) (prefix +:+ rest) = rest.
Proof.
  induction prefix as [|c p IH]; [by destruct rest|].
  rewrite string_app_cons. simpl. apply IH.
Qed.

(** X1: [extractTokenFromHeader] returns a token exactly for the headers
    of the form [Bearer <token>], and the token is the rest of the header;
    every other header, and a missing one, gives [null]. *)
Theorem extractTokenFromHeader_bearer (h : option string) (t : string) :
  Jwt.extractTokenFromHeader h = Some t ↔ h = Some ("Bearer " +:+ t).
Proof.
  unfold Jwt.extractTokenFromHeader. split.
  - destruct h as [h|]; [|done].
    destruct (Routes.startsWith "Bearer " h) eqn:Hs;
      [|by rewrite andb_false_r].
    destruct (negb _); [|done]. simpl. intros [= <-].
    f_equal. by apply (startsWith_split "Bearer " h).
  - intros ->. rewrite (startsWith_app "Bearer " t).
    change 7 with (String.length "Bearer ").
    rewrite (substring_from_app "Bearer " t).
    by rewrite string_app_cons.
Qed.

(** X2: the check the post handlers write out by hand is
    [verifyTokenFromRequest], provided the empty token does not verify (the
    handlers hand the empty token of a bare [Bearer ] header to
    [verifyToken], [verifyTokenFromRequest] does not). *)
Theorem authenticate_verifyTokenFromRequest
    (env : Routes.Env) (req : Routes.Request) :
  Routes.verifyToken env "" = None →
  Routes.authenticate env req
  = Jwt.verifyTokenFromRequest (Routes.verifyToken env)
      (Routes.authorization req).
Proof.
  intros Hempty.
  unfold Routes.authenticate, Jwt.verifyTokenFromRequest,
    Jwt.extractTokenFromHeader.
  destruct (Routes.authorization req) as [h|]; [|done].
  destruct (_ && _); [|done].
  destruct (String.eqb_spec (Routes.substring_from 7 h) "") as [->|]; done.
Qed.

Lemma authenticate_verifyTokenFromRequest_witness :
  Routes.authenticate Samples.env_of_ann
    (Routes.mkRequest (Some "Bearer t-ann") (Routes.req_body Examples.unpublish))
  = Jwt.verifyTokenFromRequest Samples.verify_ann (Some "Bearer t-ann").
Proof.
  apply (authenticate_verifyTokenFromRequest Samples.env_of_ann
           (Routes.mkRequest (Some "Bearer t-ann")
              (Routes.req_body Examples.unpublish))).
  reflexivity.
Defined.

(** ** Validation *)

Section EmailShape.
Import Validation.

Lemma all_email_chars_app a b :
  all_email_chars (a +:+ b) = all_email_chars a && all_email_chars b.
Proof.
  induction a as [|c a IH]; [done|].
  rewrite string_app_cons. simpl. by rewrite IH, andb_assoc.
Qed.

Lemma split_at_sign_app l rest :
  all_email_chars l = true →
  split_at_sign (l +:+ "@" +:+ rest) = Some (l, rest).
Proof.
  induction l as [|c l IH]; [done|].
  rewrite string_app_cons. simpl. intros [Hc Hl]%andb_true_iff.
  unfold email_char in Hc. apply andb_true_iff in Hc as [_ Hc].
  apply negb_true_iff in Hc. rewrite Hc. by rewrite IH.
Qed.

Lemma split_at_sign_inv s l rest :
  split_at_sign s = Some (l, rest) → s = l +:+ "@" +:+ rest.
Proof.
  revert l. induction s as [|c s IH]; intros l; [done|]. simpl.
  destruct (Js.code c =? 64)%N eqn:Hc.
  - intros [= <- <-]. apply N.eqb_eq in Hc.
    assert (c = "@"%char) as ->; [|done].
    rewrite <- (ascii_N_embedding c). unfold Js.code in Hc. by rewrite Hc.
  - destruct (split_at_sign s) as [[l' r']|]; [|done].
    intros [= <- <-]. rewrite string_app_cons. f_equal. by apply IH.
Qed.

Lemma dot_before_last_app a b :
  b ≠ "" → dot_before_last (a +:+ "." +:+ b) = true.
Proof.
  intros Hb. induction a as [|c a IH].
  - destruct b; done.
  - rewrite string_app_cons. simpl.
    destruct (a +:+ "." +:+ b) eqn:E; [by destruct a|].
    by rewrite IH, orb_true_r.
Qed.

Lemma dot_before_last_inv s :
  dot_before_last s = true → ∃ a b, s = a +:+ "." +:+ b ∧ b ≠ "".
Proof.
  induction s as [|c s IH]; [done|]. simpl.
  destruct s as [|d s]; [done|].
  intros [Hc|Hs]%orb_true_iff.
  - apply N.eqb_eq in Hc.
    assert (c = "."%char) as ->.
    { rewrite <- (ascii_N_embedding c). unfold Js.code in Hc. by rewrite Hc. }
    by exists "", (String d s).
  - destruct (IH Hs) as (a & b & E & Hb).
    exists (String c a), b. rewrite string_app_cons. by rewrite <- E.
Qed.

End EmailShape.

(** X3: [isValidEmail] accepts exactly the strings [local@name.rest] whose
    three parts are not empty and hold neither white space nor [@]. *)
Theorem isValidEmail_shape (email : string) :
  Validation.isValidEmail email = true ↔
  ∃ l a b,
    email = l +:+ "@" +:+ a +:+ "." +:+ b ∧
    l ≠ "" ∧ a ≠ "" ∧ b ≠ "" ∧
    Validation.all_email_chars l = true ∧
    Validation.all_email_chars a = true ∧
    Validation.all_email_chars b = true.
Proof.
  unfold Validation.isValidEmail. split.
  - destruct (Validation.split_at_sign email) as [[l d]|] eqn:Hsplit; [|done].
    apply split_at_sign_inv in Hsplit as ->.
    intros [[[Hl Hlc]%andb_true_iff Hdc]%andb_true_iff Hdot]%andb_true_iff.
    destruct d as [|c d']; [done|].
    apply dot_before_last_inv in Hdot as (a & b & -> & Hb).
    change (String c (a +:+ "." +:+ b)) with (String c a +:+ "." +:+ b) in *.
    rewrite !all_email_chars_app in Hdc.
    apply andb_true_iff in Hdc as [Ha [_ Hbc]%andb_true_iff].
    exists l, (String c a), b. repeat split; try done.
    apply negb_true_iff, string_eqb_false in Hl. done.
  - intros (l & a & b & -> & Hl & Ha & Hb & Hlc & Hac & Hbc).
    rewrite (split_at_sign_app l _ Hlc).
    apply string_eqb_false in Hl. rewrite Hl, Hlc. simpl.
    rewrite !all_email_chars_app, Hac, Hbc. simpl.
    destruct a as [|c a]; [done|].
    rewrite string_app_cons. by apply dot_before_last_app.
Qed.

Lemma valid_registration_logs_in (req : Validation.RegistrationData) :
  Validation.validateRegistration req = Validation.Valid →
  Validation.validateLogin
    (Validation.mkLogin (Validation.reg_email req)
                        (Validation.reg_password req))
  = Validation.Valid.
Proof.
  unfold Validation.validateRegistration, Validation.validateLogin.
  cbn [Validation.login_email Validation.login_password].
  destruct (Validation.blank _); [done|].
  destruct (_ <? _)%nat; [done|].
  destruct (_ || _); [done|].
  unfold Validation.isValidPassword.
  destruct (Validation.reg_password req) as [p|]; [|done].
  destruct p as [|c p]; [done|]. done.
Qed.

(** X4: credentials that [validateRegistration] accepts are accepted by
    [validateLogin]: whoever can register can submit the same email and
    password to the login form. *)
Theorem validateRegistration_validateLogin
    (name email password role : option string) :
  Validation.validateRegistration
    (Validation.mkRegistration name email password role) = Validation.Valid →
  Validation.validateLogin (Validation.mkLogin email password)
  = Validation.Valid.
Proof.
  apply (valid_registration_logs_in
           (Validation.mkRegistration name email password role)).
Qed.

Lemma validateRegistration_validateLogin_witness :
  Validation.validateLogin
    (Validation.mkLogin (Some "bob@example.org") (Some "secret1"))
  = Validation.Valid.
Proof.
  apply (validateRegistration_validateLogin (Some "Bob")
           (Some "bob@example.org") (Some "secret1") None).
  reflexivity.
Defined.

Section Blank.
Import Validation Validators.

Lemma trimStart_all_space s :
  Js.trimStart s = "" ↔ Posts.string_forall Js.is_space s = true.
Proof.
  induction s as [|c s IH]; [done|]. simpl.
  destruct (Js.is_space c); simpl; [done|]. split; done.
Qed.

Lemma trimStart_visible s c r :
  Js.trimStart s = String c r → Js.is_space c = false.
Proof.
  induction s as [|d s IH]; [done|]. simpl.
  destruct (Js.is_space d) eqn:Hd; [done|]. by intros [= <- <-].
Qed.

Lemma trimEnd_visible c r : Js.is_space c = false → Js.trimEnd (String c r) ≠ "".
Proof. simpl. intros ->. by destruct (Js.trimEnd r). Qed.

Lemma trim_all_space s :
  Js.trim s = "" ↔ Posts.string_forall Js.is_space s = true.
Proof.
  rewrite <- trimStart_all_space. unfold Js.trim. split.
  - destruct (Js.trimStart s) as [|c r] eqn:E; [done|].
    intros H. by destruct (trimEnd_visible c r (trimStart_visible s c r E)).
  - by intros ->.
Qed.

(** A value is blank when it is absent, empty or white space only. *)
Lemma blank_Some s : blank (Some s) = Posts.string_forall Js.is_space s.
Proof.
  unfold blank. simpl.
  destruct (Posts.string_forall Js.is_space s) eqn:F.
  - apply trim_all_space in F. rewrite F. simpl. apply orb_true_r.
  - destruct (String.eqb_spec s "") as [->|_]; [done|]. simpl.
    destruct (Js.trim s) eqn:E; [|done].
    apply trim_all_space in E. congruence.
Qed.

Lemma blank_visible v :
  blank v = false ↔ ∃ s, v = Some s ∧ has_visible s = true.
Proof.
  destruct v as [s|].
  - rewrite blank_Some. unfold has_visible. split.
    + intros F. exists s. by rewrite F.
    + intros (s' & [= <-] & H). by apply negb_true_iff in H.
  - split; [done|]. by intros (s & ? & _).
Qed.

End Blank.

(** X5: [validateComment], [validateTag] and [validateCategory] accept
    exactly a text that has a character other than white space and at most
    1000, 50 and 100 characters (the bound itself included); a category may
    besides carry a description of at most 500 characters. *)
Theorem small_validators_accept
    (content name description : option string) :
  (Validators.validateComment (Validators.mkCommentData content)
     = Validation.Valid ↔
   ∃ s, content = Some s ∧ Validators.has_visible s = true ∧
        String.length s ≤ 1000) ∧
  (Validators.validateTag (Validators.mkTagData name) = Validation.Valid ↔
   ∃ s, name = Some s ∧ Validators.has_visible s = true ∧
        String.length s ≤ 50) ∧
  (Validators.validateCategory (Validators.mkCategoryData name description)
     = Validation.Valid ↔
   ∃ s, name = Some s ∧ Validators.has_visible s = true ∧
        String.length s ≤ 100 ∧
        ∀ d, description = Some d → String.length d ≤ 500).
Proof.
  unfold Validators.validateComment, Validators.validateTag,
    Validators.validateCategory. simpl.
  split; [|split].
  - destruct (Validation.blank content) eqn:B.
    + split; [done|]. intros (s & Hs & Hv & _).
      assert (Validation.blank content = false) as B'
        by (apply blank_visible; eauto). congruence.
    + apply blank_visible in B as (s & -> & Hv). simpl.
      destruct (Nat.ltb_spec 1000 (String.length s)).
      * split; [done|]. intros (s' & [= <-] & _ & ?). lia.
      * split; [|done]. intros _. exists s. repeat split; [done|lia].
  - destruct (Validation.blank name) eqn:B.
    + split; [done|]. intros (s & Hs & Hv & _).
      assert (Validation.blank name = false) as B'
        by (apply blank_visible; eauto). congruence.
    + apply blank_visible in B as (s & -> & Hv). simpl.
      destruct (Nat.ltb_spec 50 (String.length s)).
      * split; [done|]. intros (s' & [= <-] & _ & ?). lia.
      * split; [|done]. intros _. exists s. repeat split; [done|lia].
  - destruct (Validation.blank name) eqn:B.
    + split; [done|]. intros (s & Hs & Hv & _).
      assert (Validation.blank name = false) as B'
        by (apply blank_visible; eauto). congruence.
    + apply blank_visible in B as (s & -> & Hv). simpl.
      destruct (Nat.ltb_spec 100 (String.length s)).
      * split; [done|]. intros (s' & [= <-] & _ & ? & _). lia.
      * destruct description as [d|]; simpl.
        -- destruct (Nat.ltb_spec 500 (String.length d)).
           ++ rewrite andb_true_r.
              destruct (String.eqb_spec d "") as [->|_]; simpl.
              ** simpl in *. lia.
              ** split; [done|]. intros (s' & _ & _ & _ & Hd).
                 specialize (Hd d eq_refl). lia.
           ++ rewrite andb_false_r. split; [|done]. intros _.
              exists s. repeat split; [done|lia|]. intros d' [= <-]. lia.
        -- split; [|done]. intros _. exists s. repeat split; [done|lia|done].
Qed.

(** ** Comments *)

Section CommentFacts.
Import Store Comments CommentOps.

Lemma single_ok {A} (l : list A) (x : A) : single l = ok x ↔ l = [x].
Proof.
  destruct l as [|y [|z l]]; simpl; unfold ok, failed;
    split; intros H; by simplify_eq.
Qed.

Lemma fetch_cases tbl commentId :
  (∃ c, fetch tbl commentId = ok c) ∨ fetch tbl commentId = failed NotOneRow.
Proof.
  unfold fetch. destruct (filter _ tbl) as [|y [|z l]]; simpl; eauto.
Qed.

Lemma fetch_ok_elem tbl commentId c :
  fetch tbl commentId = ok c → (c ∈ tbl) ∧ (id c = commentId).
Proof.
  unfold fetch. intros H%single_ok.
  assert (c ∈ filter (λ c, has_id commentId c = true) tbl) as Hin
    by (rewrite H; apply list_elem_of_here).
  apply list_elem_of_filter in Hin as [Hid Hin].
  split; [done|]. by apply string_eqb_true.
Qed.

Lemma delete_by_id_elem tbl commentId (c : Comment) :
  c ∈ delete_by_id tbl commentId ↔ (c ∈ tbl) ∧ (id c ≠ commentId).
Proof.
  unfold delete_by_id. rewrite list_elem_of_filter. unfold has_id.
  by rewrite string_eqb_false, (comm and).
Qed.

Lemma fetch_after_delete tbl commentId :
  fetch (delete_by_id tbl commentId) commentId = failed NotOneRow.
Proof.
  unfold fetch.
  destruct (filter _ (delete_by_id tbl commentId)) as [|y l] eqn:F; [done|].
  assert (y ∈ filter (λ c, has_id commentId c = true)
                     (delete_by_id tbl commentId)) as Hin
    by (rewrite F; apply list_elem_of_here).
  apply list_elem_of_filter in Hin as [Hid Hin].
  apply delete_by_id_elem in Hin as [_ Hne].
  by apply string_eqb_true in Hid.
Qed.

End CommentFacts.

(** X6: [deleteComment] returns true exactly when both calls to the store
    are answered, one comment has the id, and the caller is an admin or the
    author of that comment (whatever the author's role). *)
Theorem deleteComment_true_iff
    (on_fetch on_delete : Store.Fault) (tbl : list Comments.Comment)
    (commentId userId userRole : string) :
  (Comments.deleteComment on_fetch on_delete tbl commentId userId userRole).1
    = true ↔
  on_fetch = Store.Answered ∧ on_delete = Store.Answered ∧
  ∃ c, Comments.fetch tbl commentId = Store.ok c ∧
       (userRole = "admin" ∨ Comments.user_id c = userId).
Proof.
  unfold Comments.deleteComment.
  destruct on_fetch; simpl; [|by split; [|intros (? & _)]..].
  destruct (fetch_cases tbl commentId) as [[c Hc]| Hc]; rewrite Hc; simpl.
  - destruct (String.eqb_spec userRole "admin") as [Hr|Hr],
             (String.eqb_spec (Comments.user_id c) userId) as [Hu|Hu]; simpl.
    all: destruct on_delete; simpl.
    all: split; [try done; intros _; repeat split; eauto
                |try done; intros (_ & Hd & c' & [= <-] & Hor);
                 try discriminate; by destruct Hor].
  - split; [done|]. by intros (_ & _ & c & ? & _).
Qed.

(** X7: [deleteComment] takes away nothing but the comment with the given
    id, and only when it returns true; when it returned true, a second call
    for the same id returns false and changes nothing. *)
Theorem deleteComment_only_target
    (on_fetch on_delete : Store.Fault) (tbl : list Comments.Comment)
    (commentId userId userRole : string) (c : Comments.Comment) :
  (c ∈ (Comments.deleteComment on_fetch on_delete tbl commentId
          userId userRole).2 ↔
   (c ∈ tbl) ∧
   ((Comments.deleteComment on_fetch on_delete tbl commentId
       userId userRole).1 = false ∨ Comments.id c ≠ commentId)) ∧
  ((Comments.deleteComment on_fetch on_delete tbl commentId
      userId userRole).1 = true →
   ∀ on_fetch' on_delete' userId' userRole',
     Comments.deleteComment on_fetch' on_delete'
       (Comments.deleteComment on_fetch on_delete tbl commentId
          userId userRole).2
       commentId userId' userRole'
     = (false,
        (Comments.deleteComment on_fetch on_delete tbl commentId
           userId userRole).2)).
Proof.
  destruct (Comments.deleteComment on_fetch on_delete tbl commentId
              userId userRole) as [b tbl'] eqn:E.
  assert ((b = false ∧ tbl' = tbl) ∨
          (b = true ∧ tbl' = Comments.delete_by_id tbl commentId)) as Hcases.
  { unfold Comments.deleteComment in E.
    destruct on_fetch; simplify_eq/=; eauto.
    destruct (Store.error (Comments.fetch tbl commentId));
      simplify_eq/=; eauto.
    destruct (Store.data (Comments.fetch tbl commentId));
      simplify_eq/=; eauto.
    destruct (_ && _); simplify_eq/=; eauto.
    destruct on_delete; simplify_eq/=; eauto. }
  simpl. destruct Hcases as [[-> ->]|[-> ->]].
  - split; [|done]. split; [by eauto | by intros [? _]].
  - split.
    + rewrite delete_by_id_elem. split.
      * intros [? ?]. eauto.
      * intros [? [?|?]]; done.
    + intros _ on_fetch' on_delete' userId' userRole'.
      unfold Comments.deleteComment. rewrite fetch_after_delete.
      by destruct on_fetch'.
Qed.

Lemma deleteComment_only_target_witness :
  Comments.deleteComment Store.Answered Store.Answered
    [Examples.comment_of_bob] "c1" "ann" "author"
  = (false, [Examples.comment_of_bob]).
Proof.
  destruct (deleteComment_only_target Store.Answered Store.Answered
              Examples.comments "c1" "ann" "author" Examples.comment_of_bob)
    as [_ Hagain].
  apply (Hagain eq_refl Store.Answered Store.Answered "ann" "author").
Defined.

Section CommentOrder.
Import Comments CommentOps.

Global Instance newer_or_same_total : Total newer_or_same.
Proof.
  intros a b. unfold newer_or_same.
  destruct (total String.le (created_at a) (created_at b)); auto.
Qed.

Global Instance newer_or_same_trans : Transitive newer_or_same.
Proof.
  intros a b c Hab Hbc. unfold newer_or_same in *. by etrans.
Qed.

Lemma view_comment users (l : list Comment) :
  cv_comment <$> (view users <$> l) = l.
Proof. induction l as [|c l IH]; [done|]. simpl. by f_equal. Qed.

End CommentOrder.

(** X8: when the store answers, [getPostComments] returns the comments of
    the post, all of them and no other (each as often as the table holds
    it), the newest first; when the store fails it returns the empty
    list. *)
Theorem getPostComments_newest_first
    (fault : Store.Fault) (users : list Auth.User)
    (tbl : list Comments.Comment) (postId : string) :
  (fault = Store.Answered →
   CommentOps.cv_comment <$> CommentOps.getPostComments fault users tbl postId
     ≡ₚ filter (λ c, CommentOps.of_post postId c = true) tbl ∧
   StronglySorted CommentOps.newer_or_same
     (CommentOps.cv_comment
        <$> CommentOps.getPostComments fault users tbl postId)) ∧
  (fault ≠ Store.Answered →
   CommentOps.getPostComments fault users tbl postId = []).
Proof.
  split.
  - intros ->. unfold CommentOps.getPostComments. rewrite view_comment.
    split; [apply merge_sort_Permutation | apply StronglySorted_merge_sort; apply _].
  - by destruct fault.
Qed.

Lemma getPostComments_newest_first_witness :
  CommentOps.cv_comment
    <$> CommentOps.getPostComments Store.Answered [Examples.ann]
          Examples.comments "1"
    ≡ₚ filter (λ c, CommentOps.of_post "1" c = true) Examples.comments ∧
  StronglySorted CommentOps.newer_or_same
    (CommentOps.cv_comment
       <$> CommentOps.getPostComments Store.Answered [Examples.ann]
             Examples.comments "1").
Proof.
  destruct (getPostComments_newest_first Store.Answered [Examples.ann]
              Examples.comments "1") as [Hanswered _].
  apply Hanswered. reflexivity.
Defined.

(** X9: a comment created under a key that is not yet in the table is
    appended with both timestamps set to the time of the call; it is then
    among the comments [getPostComments] returns for its post, and its
    author, whatever the author's role, can delete it again, which gives
    back the table as it was. *)
Theorem createComment_round_trip
    (new_id now : string) (users : list Auth.User)
    (tbl : list Comments.Comment) (d : CommentOps.NewComment)
    (userRole : string) :
  (∀ c, c ∈ tbl → Comments.id c ≠ new_id) →
  let c := Comments.mkComment new_id (CommentOps.nc_post_id d)
             (CommentOps.nc_user_id d) (CommentOps.nc_content d) now now in
  CommentOps.createComment Store.Answered new_id now users tbl d
    = (Some (CommentOps.view users c), tbl ++ [c]) ∧
  CommentOps.view users c
    ∈ CommentOps.getPostComments Store.Answered users (tbl ++ [c])
        (CommentOps.nc_post_id d) ∧
  Comments.deleteComment Store.Answered Store.Answered (tbl ++ [c])
    new_id (CommentOps.nc_user_id d) userRole
  = (true, tbl).
Proof.
  intros Hfresh c.
  assert (filter (λ x, Comments.has_id new_id x = true) tbl = []) as Hnone.
  { destruct (filter _ tbl) as [|y l] eqn:F; [done|]. exfalso.
    assert (y ∈ filter (λ x, Comments.has_id new_id x = true) tbl) as Hin
      by (rewrite F; apply list_elem_of_here).
    apply list_elem_of_filter in Hin as [Hid Hin].
    apply string_eqb_true in Hid. by apply (Hfresh y). }
  assert (Comments.has_id new_id c = true) as Hc
    by (unfold Comments.has_id, c; simpl; apply String.eqb_refl).
  split; [|split].
  - unfold CommentOps.createComment.
    destruct (existsb (Comments.has_id new_id) tbl) eqn:Hex; [|done].
    apply existsb_exists in Hex as (y & Hin & Hid).
    apply list_elem_of_In in Hin. apply string_eqb_true in Hid.
    by destruct (Hfresh y Hin).
  - unfold CommentOps.getPostComments. apply list_elem_of_fmap_2.
    rewrite merge_sort_Permutation, list_elem_of_filter. split.
    + unfold CommentOps.of_post, c. simpl. apply String.eqb_refl.
    + apply elem_of_app. right. apply list_elem_of_here.
  - unfold Comments.deleteComment, Comments.fetch.
    rewrite filter_app, Hnone, filter_cons_True, filter_nil by done. simpl.
    rewrite String.eqb_refl, andb_false_r.
    f_equal. unfold Comments.delete_by_id.
    rewrite filter_app, filter_cons_False, filter_nil, app_nil_r
      by (by rewrite Hc).
    clear -Hfresh. induction tbl as [|y l IH]; [done|].
    rewrite filter_cons_True.
    + f_equal. apply IH. intros z Hz. apply Hfresh. by right.
    + apply string_eqb_false. apply Hfresh. by left.
Qed.

Lemma createComment_round_trip_witness :
  Comments.deleteComment Store.Answered Store.Answered
    (Examples.comments
     ++ [Comments.mkComment "c3" "1" "carl" "First!" Examples.noon Examples.noon])
    "c3" "carl" "reader"
  = (true, Examples.comments).
Proof.
  refine (proj2 (proj2 (createComment_round_trip "c3" Examples.noon
                          [Examples.ann] Examples.comments
                          Samples.comment_of_carl "reader" _))).
  intros c Hc. vm_compute in Hc.
  repeat (apply elem_of_cons in Hc as [->|Hc]; [discriminate|]).
  by apply elem_of_nil in Hc.
Defined.

(** ** Reading posts *)

Section Reading.
Import Store Site.

Lemma found_ok {A} (r : Reply A) (x : A) : found r = Some x → data r = Some x.
Proof. unfold found. by destruct (error r). Qed.

Lemma found_single {A} (l : list A) (x : A) :
  found (single l) = Some x ↔ l = [x].
Proof.
  destruct l as [|y [|z l]]; simpl; unfold found; simpl;
    split; intros H; by simplify_eq.
Qed.

Lemma found_under {A} fault (r r' : Reply A) (x : A) :
  Auth.reply_under fault r = Some r' → found r' = Some x →
  fault = Answered ∧ found r = Some x.
Proof. destruct fault; simpl; intros [= <-]; done. Qed.

Lemma matches_list_filters category search (p : Post) :
  matches (mkQuery (list_filters category search) 0 0) p = true →
  status p = "published" ∧
  (∀ c, category = Some c → category_id p = Some (cat_id c)).
Proof.
  unfold matches, list_filters. cbn [filters].
  rewrite !forallb_app. intros [Hst [Hcat _]%andb_true_iff]%andb_true_iff.
  split.
  - simpl in Hst. rewrite andb_true_r in Hst. by apply string_eqb_true.
  - intros c ->. simpl in Hcat. rewrite andb_true_r in Hcat.
    destruct (category_id p) as [x|]; [|done].
    apply string_eqb_true in Hcat. by subst.
Qed.

End Reading.

(** X10: every post that [GET /api/posts] serves is a published row of the
    [posts] relation; when the category parameter names a category that the
    lookup returns, each post served belongs to it; when a non-empty tag
    parameter is given, each post served carries a tag with that slug; and
    [count] is the number of posts served. *)
Theorem GET_posts_sound
    (on_category on_posts : Store.Fault) (db : Site.Db) (q : Site.ListParams)
    (data : list Site.PostView) (count : nat) (v : Site.PostView) :
  Site.GET on_category on_posts db q
    = Site.mkResponse 200 (Site.Listing data count) →
  v ∈ data →
  count = length data ∧
  Site.pv_post v ∈ Routes.rows (Site.core db) ∧
  Posts.status (Site.pv_post v) = "published" ∧
  (∀ s c, Site.lp_category q = Some s → s ≠ "" →
          on_category = Store.Answered →
          Site.category_by_slug db s = Store.ok c →
          Posts.category_id (Site.pv_post v) = Some (Site.cat_id c)) ∧
  (∀ t, Site.lp_tag q = Some t → t ≠ "" → Site.has_tag t v = true).
Proof.
  unfold Site.GET. intros HGET Hv.
  set (lookup := if Js.truthy (Site.lp_category q) then _ else _) in HGET.
  destruct lookup as [category|] eqn:Hlookup; [|done].
  destruct on_posts; [|done..].
  injection HGET as <- <-. split; [done|].
  set (posts := Site.view _ db <$> _) in *.
  assert (v ∈ posts) as Hposts.
  { destruct (Js.truthy (Site.lp_tag q)); [|done].
    by apply list_elem_of_filter in Hv as [_ ?]. }
  unfold posts in Hposts.
  apply list_elem_of_fmap in Hposts as (p & -> & Hp).
  apply result_set_elem in Hp as [Hm Hp]. simpl.
  apply matches_list_filters in Hm as [Hst Hcat].
  split; [done|]. split; [done|]. split.
  - intros s c Hs Hne -> Hc. apply Hcat.
    unfold lookup in Hlookup. rewrite Hs, (truthy_Some s Hne) in Hlookup.
    simpl in Hlookup. rewrite Hc in Hlookup. by injection Hlookup as <-.
  - intros t Ht Hne. rewrite Ht, (truthy_Some t Hne) in Hv.
    by apply list_elem_of_filter in Hv as [? _].
Qed.

Lemma GET_posts_sound_witness :
  1 = length [Site.view ["id"; "name"; "email"; "avatar_url"] Samples.site
                (Examples.sample_post 0)] ∧
  Examples.sample_post 0 ∈ Routes.rows (Site.core Samples.site) ∧
  Posts.status (Examples.sample_post 0) = "published" ∧
  (∀ s c, Some "news" = Some s → s ≠ "" →
          Store.Answered = Store.Answered →
          Site.category_by_slug Samples.site s = Store.ok c →
          Posts.category_id (Examples.sample_post 0) = Some (Site.cat_id c)) ∧
  (∀ t, Some "rocq" = Some t → t ≠ "" →
        Site.has_tag t
          (Site.view ["id"; "name"; "email"; "avatar_url"] Samples.site
             (Examples.sample_post 0)) = true).
Proof.
  apply (GET_posts_sound Store.Answered Store.Answered Samples.site
           Samples.by_tag_rocq
           [Site.view ["id"; "name"; "email"; "avatar_url"] Samples.site
              (Examples.sample_post 0)]
           1
           (Site.view ["id"; "name"; "email"; "avatar_url"] Samples.site
              (Examples.sample_post 0))).
  - vm_compute. reflexivity.
  - apply list_elem_of_here.
Defined.

(** X11: a category parameter that names no category, or several, or
    whose lookup is answered with an error, is passed over without notice:
    the response is the one of the same request without the parameter. *)
Theorem GET_posts_unknown_category
    (on_category on_posts : Store.Fault) (db : Site.Db)
    (category tag search : option string) :
  on_category ≠ Store.Thrown →
  (on_category = Store.Answered →
   Store.data (Site.category_by_slug db (default "" category)) = None) →
  Site.GET on_category on_posts db (Site.mkListParams category tag search)
  = Site.GET on_category on_posts db (Site.mkListParams None tag search).
Proof.
  intros Hthrown Hnone. unfold Site.GET. simpl.
  destruct (Js.truthy category); [|done].
  destruct on_category; simpl; [|done|done].
  by rewrite Hnone.
Qed.

Lemma GET_posts_unknown_category_witness :
  Site.GET Store.Answered Store.Answered Samples.site
    (Site.mkListParams (Some "sports") None None)
  = Site.GET Store.Answered Store.Answered Samples.site
      (Site.mkListParams None None None).
Proof.
  apply (GET_posts_unknown_category Store.Answered Store.Answered Samples.site
           (Some "sports") None None).
  - discriminate.
  - intros _. reflexivity.
Defined.

Lemma view_post cols db (l : list Posts.Post) :
  Site.pv_post <$> (Site.view cols db <$> l) = l.
Proof. induction l as [|p l IH]; [done|]. simpl. by f_equal. Qed.

(** X12: without parameters, and with a store that answers,
    [GET /api/posts] serves the published posts, each of them once and no
    draft, the latest publication first. *)
Theorem GET_posts_all_published (on_category : Store.Fault) (db : Site.Db) :
  ∃ data,
    Site.GET on_category Store.Answered db (Site.mkListParams None None None)
      = Site.mkResponse 200 (Site.Listing data (length data)) ∧
    Site.pv_post <$> data
      ≡ₚ filter (λ p, Posts.status p = "published")
                (Routes.rows (Site.core db)) ∧
    Sorted Posts.later_or_same (Site.pv_post <$> data).
Proof.
  exists (Site.view ["id"; "name"; "email"; "avatar_url"] db
            <$> Posts.result_set
                  (Posts.mkQuery (Site.list_filters None None) 0 0)
                  (Routes.rows (Site.core db))).
  split; [reflexivity|]. rewrite view_post. split.
  - unfold Posts.result_set. rewrite merge_sort_Permutation.
    apply reflexive_eq, list_filter_iff. intros p.
    unfold Posts.matches. simpl. rewrite andb_true_r.
    apply string_eqb_true.
  - apply Sorted_merge_sort.
    intros p q. unfold Posts.later_or_same.
    destruct (Posts.published_at p) as [x|], (Posts.published_at q) as [y|];
      auto.
    destruct (String.leb_total x y) as [H|H]; auto.
Qed.

(** X13: [GET /api/posts/{slug}] answers 200 only with a published post
    that bears the slug.  For a slug that one draft bears it answers 404,
    although [getPostBySlug] returns that draft; for a slug that one
    published post bears, the two return the same post. *)
Theorem GET_by_slug_published_only
    (fault : Store.Fault) (db : Site.Db) (s : string) (p : Posts.Post) :
  (∀ v, Site.GET_by_slug fault db s = Site.mkResponse 200 (Site.Found v) →
        Posts.slug (Site.pv_post v) = s ∧
        Posts.status (Site.pv_post v) = "published") ∧
  (Routes.find_by_slug (Site.core db) s = Store.ok p →
   Site.getPostBySlug Store.Answered db s
     = Some (Site.view ["id"; "name"; "email"; "avatar_url"; "bio"] db p) ∧
   Site.GET_by_slug Store.Answered db s
     = if String.eqb (Posts.status p) "published"
       then Site.mkResponse 200
              (Site.Found
                 (Site.view ["id"; "name"; "email"; "avatar_url"; "bio"] db p))
       else Site.not_found).
Proof.
  split.
  - intros v. unfold Site.GET_by_slug.
    destruct (Auth.reply_under fault _) as [r|] eqn:Hr; [|done].
    destruct (Site.found r) as [x|] eqn:Hx; [|done].
    intros [= <-]. simpl.
    destruct (found_under _ _ _ _ Hr Hx) as [_ Hfound].
    apply found_single in Hfound.
    assert (x ∈ filter (λ p, Site.published_with_slug s p = true)
                       (Routes.rows (Site.core db))) as Hin
      by (rewrite Hfound; apply list_elem_of_here).
    apply list_elem_of_filter in Hin as [Hps _].
    unfold Site.published_with_slug in Hps.
    apply andb_true_iff in Hps as [? ?]. by rewrite <- !string_eqb_true.
  - intros Hp. unfold Site.getPostBySlug, Site.GET_by_slug. simpl.
    rewrite Hp. split; [done|].
    unfold Routes.find_by_slug in Hp. apply single_ok in Hp.
    assert (filter (λ p, Site.published_with_slug s p = true)
                   (Routes.rows (Site.core db))
            = filter (λ p, String.eqb (Posts.status p) "published" = true) [p])
      as ->.
    { rewrite <- Hp, list_filter_filter. apply list_filter_iff.
      intros x. unfold Site.published_with_slug.
      rewrite andb_true_iff. tauto. }
    rewrite filter_cons, filter_nil.
    destruct (String.eqb (Posts.status p) "published"); by case_decide.
Qed.

Lemma GET_by_slug_published_only_witness :
  Site.getPostBySlug Store.Answered Samples.site "notes"
    = Some (Site.view ["id"; "name"; "email"; "avatar_url"; "bio"]
              Samples.site Samples.draft_post) ∧
  Site.GET_by_slug Store.Answered Samples.site "notes" = Site.not_found.
Proof.
  refine (proj2 (GET_by_slug_published_only Store.Answered Samples.site
                   "notes" Samples.draft_post) _).
  vm_compute. reflexivity.
Defined.

(** ** Deleting a post *)

Section Deleting.
Import Store Site.

Lemma may_delete_guard decoded existing :
  negb (String.eqb (Auth.claim_role decoded) "admin") &&
  negb (String.eqb (author_id existing) (Auth.claim_id decoded)) = false
  ↔ may_delete decoded existing.
Proof.
  unfold may_delete.
  destruct (String.eqb_spec (Auth.claim_role decoded) "admin"),
           (String.eqb_spec (author_id existing) (Auth.claim_id decoded));
    simpl; split; try done; try tauto; by intros [?|?].
Qed.

End Deleting.

(** X14: [DELETE /api/posts/{slug}] changes nothing unless the request
    carries a token that verifies, the slug is that of one post, and the
    caller is an admin or the author of that post. *)
Theorem DELETE_needs_owner_or_admin
    (env : Routes.Env) (on_tags on_comments : Store.Fault)
    (slug_param : string) (req : Routes.Request) (db : Site.Db) :
  (Site.DELETE env on_tags on_comments slug_param req db).2 ≠ db →
  ∃ decoded existing,
    Routes.authenticate env req = Some decoded ∧
    Routes.on_fetch env = Store.Answered ∧
    Routes.find_by_slug (Site.core db) slug_param = Store.ok existing ∧
    Site.may_delete decoded existing.
Proof.
  unfold Site.DELETE. intros Hchanged.
  destruct (Routes.authenticate env req) as [decoded|]; [|done].
  destruct (Auth.reply_under _ _) as [r|] eqn:Hr; [|done].
  destruct (Site.found r) as [existing|] eqn:Hx; [|done].
  destruct (_ && _) eqn:Hguard; [done|].
  destruct (found_under _ _ _ _ Hr Hx) as [Hfetch Hfound].
  exists decoded, existing. repeat split; [done| |by apply may_delete_guard].
  unfold Routes.find_by_slug in *. apply found_single in Hfound.
  by rewrite Hfound.
Qed.

Lemma DELETE_needs_owner_or_admin_witness :
  ∃ decoded existing,
    Routes.authenticate (Samples.env_of_author1 Store.Answered)
      Samples.delete_request = Some decoded ∧
    Routes.on_fetch (Samples.env_of_author1 Store.Answered) = Store.Answered ∧
    Routes.find_by_slug (Site.core Samples.site) "post-0" = Store.ok existing ∧
    Site.may_delete decoded existing.
Proof.
  apply (DELETE_needs_owner_or_admin (Samples.env_of_author1 Store.Answered)
           Store.Answered Store.Answered "post-0" Samples.delete_request
           Samples.site).
  vm_compute. discriminate.
Defined.

(** What [DELETE] does once the caller is let through. *)
Lemma DELETE_authorized env on_tags on_comments slug_param req db
    decoded existing :
  Routes.authenticate env req = Some decoded →
  Routes.on_fetch env = Store.Answered →
  Routes.find_by_slug (Site.core db) slug_param = Store.ok existing →
  Site.may_delete decoded existing →
  on_tags ≠ Store.Thrown → on_comments ≠ Store.Thrown →
  Site.DELETE env on_tags on_comments slug_param req db =
  let tags' :=
    match on_tags with
    | Store.Answered =>
        filter (λ t, Routes.pt_post_id t ≠ Posts.id existing)
               (Routes.post_tags (Site.core db))
    | _ => Routes.post_tags (Site.core db)
    end in
  let comments' :=
    match on_comments with
    | Store.Answered =>
        filter (λ c, Comments.post_id c ≠ Posts.id existing)
               (Site.comments db)
    | _ => Site.comments db
    end in
  match Routes.on_write env with
  | Store.Answered =>
      (Site.mkResponse 200 (Site.Done "Post deleted successfully"),
       Site.mkDb (Routes.mkDb (delete (Posts.id existing)
                                 (Routes.posts (Site.core db))) tags')
                 comments' (Site.users db) (Site.categories db) (Site.tags db))
  | Store.Errored =>
      (Site.mkResponse 500 (Site.Failure "Failed to delete post"),
       Site.mkDb (Routes.mkDb (Routes.posts (Site.core db)) tags')
                 comments' (Site.users db) (Site.categories db) (Site.tags db))
  | Store.Thrown =>
      (Site.internal_error,
       Site.mkDb (Routes.mkDb (Routes.posts (Site.core db)) tags')
                 comments' (Site.users db) (Site.categories db) (Site.tags db))
  end.
Proof.
  intros Hauth Hfetch Hfound Hmay Htags Hcomments.
  unfold Site.DELETE. rewrite Hauth, Hfetch. simpl. rewrite Hfound. simpl.
  apply may_delete_guard in Hmay. rewrite Hmay.
  destruct on_tags, on_comments, (Routes.on_write env); done.
Qed.

(** X15: when the caller is an admin or the author and every call to the
    store is answered, [DELETE /api/posts/{slug}] answers 200, the post is
    gone, no tag row and no comment points to it any more, and every other
    post, tag row and comment, and the users, categories and tags, are as
    before. *)
Theorem DELETE_cascade
    (env : Routes.Env) (slug_param : string) (req : Routes.Request)
    (db : Site.Db) (decoded : Auth.Claims) (existing : Posts.Post) :
  Routes.authenticate env req = Some decoded →
  Routes.on_fetch env = Store.Answered →
  Routes.on_write env = Store.Answered →
  Routes.find_by_slug (Site.core db) slug_param = Store.ok existing →
  Site.may_delete decoded existing →
  ∃ db',
    Site.DELETE env Store.Answered Store.Answered slug_param req db
      = (Site.mkResponse 200 (Site.Done "Post deleted successfully"), db') ∧
    Routes.posts (Site.core db') !! Posts.id existing = None ∧
    (∀ k, k ≠ Posts.id existing →
          Routes.posts (Site.core db') !! k
          = Routes.posts (Site.core db) !! k) ∧
    (∀ t, t ∈ Routes.post_tags (Site.core db') ↔
          (t ∈ Routes.post_tags (Site.core db)) ∧
          (Routes.pt_post_id t ≠ Posts.id existing)) ∧
    (∀ c, c ∈ Site.comments db' ↔
          (c ∈ Site.comments db) ∧
          (Comments.post_id c ≠ Posts.id existing)) ∧
    Site.users db' = Site.users db ∧
    Site.categories db' = Site.categories db ∧
    Site.tags db' = Site.tags db.
Proof.
  intros Hauth Hfetch Hwrite Hfound Hmay.
  rewrite (DELETE_authorized env Store.Answered Store.Answered slug_param req
             db decoded existing Hauth Hfetch Hfound Hmay) by done.
  rewrite Hwrite. cbn zeta. eexists. split; [reflexivity|]. simpl.
  split; [apply lookup_delete_eq|].
  split; [intros k Hk; by apply lookup_delete_ne|].
  split; [intros t; rewrite list_elem_of_filter; tauto|].
  split; [intros c; rewrite list_elem_of_filter; tauto|]. done.
Qed.

Lemma DELETE_cascade_witness :
  ∃ db',
    Site.DELETE (Samples.env_of_author1 Store.Answered) Store.Answered
      Store.Answered "post-0" Samples.delete_request Samples.site
      = (Site.mkResponse 200 (Site.Done "Post deleted successfully"), db') ∧
    Routes.posts (Site.core db') !! Posts.id (Examples.sample_post 0) = None ∧
    (∀ k, k ≠ Posts.id (Examples.sample_post 0) →
          Routes.posts (Site.core db') !! k
          = Routes.posts (Site.core Samples.site) !! k) ∧
    (∀ t, t ∈ Routes.post_tags (Site.core db') ↔
          (t ∈ Routes.post_tags (Site.core Samples.site)) ∧
          (Routes.pt_post_id t ≠ Posts.id (Examples.sample_post 0))) ∧
    (∀ c, c ∈ Site.comments db' ↔
          (c ∈ Site.comments Samples.site) ∧
          (Comments.post_id c ≠ Posts.id (Examples.sample_post 0))) ∧
    Site.users db' = Site.users Samples.site ∧
    Site.categories db' = Site.categories Samples.site ∧
    Site.tags db' = Site.tags Samples.site.
Proof.
  apply (DELETE_cascade (Samples.env_of_author1 Store.Answered) "post-0"
           Samples.delete_request Samples.site
           (Auth.mkClaims "author-1" "a1@example.org" "author")
           (Examples.sample_post 0)).
  - reflexivity.
  - reflexivity.
  - reflexivity.
  - vm_compute. reflexivity.
  - right. reflexivity.
Defined.

(** X16: the steps of [DELETE /api/posts/{slug}] are not undone and their
    errors are not all looked at.  When the deletion of the post itself is
    answered with an error, the response is 500 and the post is still there,
    but its tag rows and its comments are gone; when the deletions of the
    tag rows and of the comments are answered with an error and the store
    answers the deletion of the post, the response is 200 all the same and
    those rows stay as they were. *)
Theorem DELETE_not_atomic
    (env : Routes.Env) (on_tags on_comments : Store.Fault)
    (slug_param : string) (req : Routes.Request)
    (db : Site.Db) (decoded : Auth.Claims) (existing : Posts.Post) :
  Routes.authenticate env req = Some decoded →
  Routes.on_fetch env = Store.Answered →
  Routes.find_by_slug (Site.core db) slug_param = Store.ok existing →
  Site.may_delete decoded existing →
  (Routes.on_write env = Store.Errored →
   on_tags = Store.Answered → on_comments = Store.Answered →
   ∃ db',
     Site.DELETE env on_tags on_comments slug_param req db
       = (Site.mkResponse 500 (Site.Failure "Failed to delete post"), db') ∧
     Routes.posts (Site.core db') = Routes.posts (Site.core db) ∧
     (∀ t, t ∈ Routes.post_tags (Site.core db') →
           Routes.pt_post_id t ≠ Posts.id existing) ∧
     (∀ c, c ∈ Site.comments db' →
           Comments.post_id c ≠ Posts.id existing)) ∧
  (Routes.on_write env = Store.Answered →
   on_tags = Store.Errored → on_comments = Store.Errored →
   ∃ db',
     Site.DELETE env on_tags on_comments slug_param req db
       = (Site.mkResponse 200 (Site.Done "Post deleted successfully"), db') ∧
     Routes.posts (Site.core db') !! Posts.id existing = None ∧
     Routes.post_tags (Site.core db') = Routes.post_tags (Site.core db) ∧
     Site.comments db' = Site.comments db).
Proof.
  intros Hauth Hfetch Hfound Hmay. split.
  - intros Hwrite -> ->.
    rewrite (DELETE_authorized env Store.Answered Store.Answered slug_param
               req db decoded existing Hauth Hfetch Hfound Hmay) by done.
    rewrite Hwrite. cbn zeta. eexists. split; [reflexivity|]. simpl.
    split; [done|].
    split; [intros t Ht; by apply list_elem_of_filter in Ht as [? _]
           |intros c Hc; by apply list_elem_of_filter in Hc as [? _]].
  - intros Hwrite -> ->.
    rewrite (DELETE_authorized env Store.Errored Store.Errored slug_param
               req db decoded existing Hauth Hfetch Hfound Hmay) by done.
    rewrite Hwrite. cbn zeta. eexists. split; [reflexivity|]. simpl.
    split; [apply lookup_delete_eq | done].
Qed.

Lemma DELETE_not_atomic_witness :
  ∃ db',
    Site.DELETE (Samples.env_of_author1 Store.Errored) Store.Answered
      Store.Answered "post-0" Samples.delete_request Samples.site
      = (Site.mkResponse 500 (Site.Failure "Failed to delete post"), db') ∧
    Routes.posts (Site.core db') = Routes.posts (Site.core Samples.site) ∧
    (∀ t, t ∈ Routes.post_tags (Site.core db') →
          Routes.pt_post_id t ≠ Posts.id (Examples.sample_post 0)) ∧
    (∀ c, c ∈ Site.comments db' →
          Comments.post_id c ≠ Posts.id (Examples.sample_post 0)).
Proof.
  refine (proj1 (DELETE_not_atomic (Samples.env_of_author1 Store.Errored)
                   Store.Answered Store.Answered "post-0"
                   Samples.delete_request Samples.site
                   (Auth.mkClaims "author-1" "a1@example.org" "author")
                   (Examples.sample_post 0) _ _ _ _) _ _ _);
    first [right; reflexivity | vm_compute; reflexivity].
Defined.

(** ** The write handlers and the [posts] relation *)

Section SlugIntegrity.

Lemma length_le_1_same_key {A B} (f : A → B) (l : list A) :
  NoDup (f <$> l) → (∀ x y, x ∈ l → y ∈ l → f x = f y) → length l ≤ 1.
Proof.
  destruct l as [|x [|y l]]; simpl; [lia | lia |].
  intros Hnd Hsame. exfalso.
  apply NoDup_cons in Hnd as [Hx _]. apply Hx.
  rewrite (Hsame x y) by (rewrite !elem_of_cons; tauto).
  apply list_elem_of_here.
Qed.

Lemma rows_ids (db : Routes.Db) :
  Integrity.keyed db →
  Posts.id <$> Routes.rows db = (map_to_list (Routes.posts db)).*1.
Proof.
  intros Hkeyed. unfold Routes.rows. rewrite <- list_fmap_compose.
  apply Forall_fmap_ext_1, Forall_forall. intros [k p] Hin. simpl.
  apply elem_of_map_to_list in Hin. by apply Hkeyed.
Qed.

Lemma lookup_rows (db : Routes.Db) k p :
  Routes.posts db !! k = Some p → p ∈ Routes.rows db.
Proof.
  intros Hk. unfold Routes.rows.
  apply (list_elem_of_fmap_2 snd _ (k, p)). by apply elem_of_map_to_list.
Qed.

Lemma slug_db_table env db :
  Slug.tables (Routes.slug_db env db) !! "posts"
  = Some ((λ p, Slug.mkRow (Posts.id p) (Posts.slug p)) <$> Routes.rows db).
Proof. unfold Routes.slug_db. simpl. by rewrite lookup_singleton_eq. Qed.

(** The relation as [generateSlug] reads it has unique slugs when the
    posts have. *)
Lemma slug_db_unique env db excludeId :
  Integrity.keyed db → Integrity.slugs_unique db →
  Slug.slugs_unique (Routes.slug_db env db) "posts" excludeId.
Proof.
  intros Hkeyed Huniq s. unfold Slug.bearers. rewrite slug_db_table. simpl.
  apply (length_le_1_same_key Slug.id).
  - eapply sublist_NoDup; [|apply fmap_sublist, sublist_filter].
    rewrite <- list_fmap_compose.
    change (Slug.id ∘ _) with Posts.id.
    rewrite rows_ids by done. apply NoDup_fst_map_to_list.
  - intros x y Hx Hy.
    apply list_elem_of_filter in Hx as [Hsx Hx], Hy as [Hsy Hy].
    apply list_elem_of_fmap in Hx as (p1 & -> & Hp1).
    apply list_elem_of_fmap in Hy as (p2 & -> & Hp2).
    apply rows_lookup in Hp1 as [k1 Hk1], Hp2 as [k2 Hk2].
    unfold Slug.selected in Hsx, Hsy. simpl in *.
    apply andb_true_iff in Hsx as [Hsx _], Hsy as [Hsy _].
    apply string_eqb_true in Hsx, Hsy.
    rewrite (Hkeyed _ _ Hk1), (Hkeyed _ _ Hk2).
    apply (Huniq k1 k2 p1 p2); congruence.
Qed.

(** On such a store, with probes that are answered, the slug that
    [generateSlug] returns is borne by no post but the excluded one. *)
Lemma generateSlug_unused env db title excludeId fuel s :
  Integrity.keyed db → Integrity.slugs_unique db →
  Integrity.probes_answered env →
  Slug.generateSlug fuel (Routes.slug_db env db) title "posts" excludeId
    = Some s →
  ∀ k p, Routes.posts db !! k = Some p → Posts.slug p = s →
         Js.truthy excludeId = true ∧ k = default "" excludeId.
Proof.
  intros Hkeyed Huniq Hans Hgen k p Hk Hs.
  unfold Slug.generateSlug in Hgen.
  apply (loop_result _ _ _ _ _ 0) in Hgen as (j & _ & -> & Hfree & _).
  rewrite (taken_bearers _ _ _ _ (slug_db_table env db) Hans) in Hfree
    by by apply slug_db_unique.
  apply dec_stable in Hfree.
  assert (Slug.mkRow (Posts.id p) (Posts.slug p)
          ∉ Slug.bearers (Routes.slug_db env db) "posts" excludeId
              (Slug.candidate (Slug.baseSlug title) j)) as Hnot
    by (rewrite Hfree; apply not_elem_of_nil).
  assert (Slug.mkRow k (Slug.candidate (Slug.baseSlug title) j)
          ∈ (λ p, Slug.mkRow (Posts.id p) (Posts.slug p)) <$> Routes.rows db)
    as Hin.
  { rewrite <- Hs, <- (Hkeyed _ _ Hk).
    apply (list_elem_of_fmap_2
             (λ p, Slug.mkRow (Posts.id p) (Posts.slug p))).
    by apply (lookup_rows db k). }
  unfold Slug.bearers in Hnot. rewrite slug_db_table in Hnot. simpl in Hnot.
  rewrite list_elem_of_filter in Hnot.
  unfold Slug.selected in Hnot. simpl in Hnot.
  rewrite Hs, String.eqb_refl in Hnot. simpl in Hnot.
  rewrite (Hkeyed _ _ Hk) in Hnot.
  destruct (Js.truthy excludeId).
  - destruct (String.eqb k (default "" excludeId)) eqn:E.
    + by apply string_eqb_true in E.
    + exfalso. by apply Hnot.
  - exfalso. by apply Hnot.
Qed.

End SlugIntegrity.

Section Writing.
Import Store Validation Routes.

(** A response of [POST /api/posts] other than 201 leaves the store as it
    was; a 201 comes with all of the following. *)
Lemma POST_cases env req db resp db' :
  POST env req db = Some (resp, db') →
  (db' = db ∧ http_status resp ≠ 201) ∨
  ∃ decoded s,
    authenticate env req = Some decoded ∧
    (Auth.claim_role decoded = "admin" ∨ Auth.claim_role decoded = "author") ∧
    validatePost (req_body req) = Valid ∧
    Slug.generateSlug (slug_fuel env) (slug_db env db)
      (default "" (pd_title (req_body req))) "posts" None = Some s ∧
    on_write env = Answered ∧
    posts db !! new_id env = None ∧
    resp = mkResponse 201
             (Success (new_post env decoded s (req_body req))
                      "Post created successfully") ∧
    db' = mkDb (<[new_id env := new_post env decoded s (req_body req)]>
                  (posts db))
               (post_tags db
                ++ tag_rows env (new_id env)
                     (default [] (pd_tags (req_body req)))).
Proof.
  unfold POST.
  destruct (authenticate env req) as [decoded|];
    [|intros [= <- <-]; left; by split].
  destruct (negb _ && negb _) eqn:Hrole; [intros [= <- <-]; left; by split|].
  destruct (validatePost _) eqn:Hvalid; [|intros [= <- <-]; left; by split].
  destruct (Slug.generateSlug _ _ _ _ _) as [s|] eqn:Hslug; [|done]. simpl.
  destruct (on_write env) eqn:Hwrite;
    [|intros [= <- <-]; left; by split..].
  destruct (posts db !! new_id env) eqn:Hkey;
    [intros [= <- <-]; left; by split|].
  intros [= <- <-]. right. exists decoded, s.
  repeat split; try done.
  destruct (String.eqb_spec (Auth.claim_role decoded) "admin");
    destruct (String.eqb_spec (Auth.claim_role decoded) "author");
    simpl in Hrole; auto; done.
Qed.

(** The same for [PUT /api/posts/{slug}] and 200. *)
Lemma PUT_cases env slug_param req db resp db' :
  PUT env slug_param req db = Some (resp, db') →
  (db' = db ∧ http_status resp ≠ 200) ∨
  ∃ decoded existing new_slug,
    authenticate env req = Some decoded ∧
    on_fetch env = Answered ∧
    find_by_slug db slug_param = ok existing ∧
    Site.may_delete decoded existing ∧
    reslug env db existing (req_body req) = Some new_slug ∧
    on_write env = Answered ∧
    let p := apply_update
               (update_data env existing (req_body req) new_slug) existing in
    resp = mkResponse 200 (Success p "Post updated successfully") ∧
    posts db' = <[id existing := p]> (posts db) ∧
    post_tags db'
    = match pd_tags (req_body req) with
      | Some tags =>
          filter (λ t, pt_post_id t ≠ id existing) (post_tags db)
          ++ tag_rows env (id existing) tags
      | None => post_tags db
      end.
Proof.
  unfold PUT.
  destruct (authenticate env req) as [decoded|];
    [|intros [= <- <-]; left; by split].
  destruct (on_fetch env) eqn:Hfetch; simpl;
    [|intros [= <- <-]; left; by split..].
  unfold find_by_slug.
  destruct (filter _ (rows db)) as [|existing [|??]] eqn:Hrows; simpl;
    [intros [= <- <-]; left; by split| |intros [= <- <-]; left; by split].
  destruct (negb _ && negb _) eqn:Hguard; [intros [= <- <-]; left; by split|].
  destruct (reslug _ _ _ _) as [new_slug|] eqn:Hslug; [|done]. simpl.
  destruct (on_write env) eqn:Hwrite;
    [|intros [= <- <-]; left; by split..].
  intros [= <- <-]. right. exists decoded, existing, new_slug.
  repeat split; try done. by apply may_delete_guard.
Qed.

Lemma find_by_slug_ok db slug_param existing :
  find_by_slug db slug_param = ok existing →
  (existing ∈ rows db) ∧ (slug existing = slug_param).
Proof.
  unfold find_by_slug. intros H%single_ok.
  assert (existing ∈ filter (λ p, String.eqb (slug p) slug_param = true)
                       (rows db)) as Hin
    by (rewrite H; apply list_elem_of_here).
  apply list_elem_of_filter in Hin as [Hs Hin].
  split; [done|]. by apply string_eqb_true.
Qed.

End Writing.

Lemma created_db_posts :
  Routes.posts Examples.created_db = {[ "p1" := Examples.created_post ]}.
Proof. vm_compute. reflexivity. Qed.

Lemma created_db_keyed : Integrity.keyed Examples.created_db.
Proof.
  intros k p. rewrite created_db_posts.
  intros [<- <-]%lookup_singleton_Some. reflexivity.
Qed.

Lemma created_db_unique : Integrity.slugs_unique Examples.created_db.
Proof.
  intros k1 k2 p1 p2. rewrite created_db_posts.
  intros [<- _]%lookup_singleton_Some [<- _]%lookup_singleton_Some _.
  reflexivity.
Qed.

(** X17: [POST /api/posts] keeps the slugs of the posts unique, and every
    post under its key, when the probes of [generateSlug] are answered. *)
Theorem POST_keeps_slugs_unique
    (env : Routes.Env) (req : Routes.Request) (db : Routes.Db)
    (resp : Routes.Response) (db' : Routes.Db) :
  Integrity.probes_answered env →
  Integrity.keyed db → Integrity.slugs_unique db →
  Routes.POST env req db = Some (resp, db') →
  Integrity.keyed db' ∧ Integrity.slugs_unique db'.
Proof.
  intros Hans Hkeyed Huniq [[-> _]|H]%POST_cases; [done|].
  destruct H as (decoded & s & _ & _ & _ & Hslug & _ & Hfresh & _ & ->).
  split.
  - intros k p. simpl. intros [[<- <-]|[_ Hk]]%lookup_insert_Some; [done|].
    by apply Hkeyed.
  - intros k1 k2 p1 p2. simpl.
    intros [[<- <-]|[Hne1 Hk1]]%lookup_insert_Some
           [[<- <-]|[Hne2 Hk2]]%lookup_insert_Some Hsame; [done| | |].
    + by destruct (generateSlug_unused env db _ None _ s Hkeyed Huniq Hans
                     Hslug k2 p2 Hk2 (eq_sym Hsame)).
    + by destruct (generateSlug_unused env db _ None _ s Hkeyed Huniq Hans
                     Hslug k1 p1 Hk1 Hsame).
    + by apply (Huniq k1 k2 p1 p2).
Qed.

Lemma POST_keeps_slugs_unique_witness :
  Integrity.keyed Samples.second_create.2 ∧
  Integrity.slugs_unique Samples.second_create.2.
Proof.
  apply (POST_keeps_slugs_unique (Examples.request_env Samples.june "p2")
           Examples.create_published Examples.created_db
           Samples.second_create.1 Samples.second_create.2).
  - intros n. reflexivity.
  - exact created_db_keyed.
  - exact created_db_unique.
  - vm_compute. reflexivity.
Defined.

(** X18: [PUT /api/posts/{slug}] keeps the slugs of the posts unique, and
    every post under its key, when the probes of [generateSlug] are
    answered, whether the title changes or not. *)
Theorem PUT_keeps_slugs_unique
    (env : Routes.Env) (slug_param : string) (req : Routes.Request)
    (db : Routes.Db) (resp : Routes.Response) (db' : Routes.Db) :
  Integrity.probes_answered env →
  Integrity.keyed db → Integrity.slugs_unique db →
  Routes.PUT env slug_param req db = Some (resp, db') →
  Integrity.keyed db' ∧ Integrity.slugs_unique db'.
Proof.
  intros Hans Hkeyed Huniq [[-> _]|H]%PUT_cases; [done|].
  destruct H as (decoded & existing & new_slug & _ & _ & Hfound & _ & Hslug
                 & _ & _ & Hposts & _).
  apply find_by_slug_ok in Hfound as [[k0 Hk0]%rows_lookup _].
  pose proof (Hkeyed _ _ Hk0) as Hid.
  assert (∀ k p, Routes.posts db !! k = Some p →
            Posts.slug (Routes.apply_update
                          (Routes.update_data env existing (Routes.req_body req)
                             new_slug) existing) = Posts.slug p →
            k = Posts.id existing) as Hown.
  { intros k p Hk. simpl. unfold Routes.reslug in Hslug.
    destruct (_ && _) in Hslug.
    - destruct (Slug.generateSlug _ _ _ _ _) as [s|] eqn:Hgen; [|done].
      injection Hslug as <-. simpl. intros Hs.
      by destruct (generateSlug_unused env db _ _ _ s Hkeyed Huniq Hans
                     Hgen k p Hk (eq_sym Hs)).
    - injection Hslug as <-. simpl. intros Hs.
      rewrite Hid. by apply (Huniq k k0 p existing). }
  split.
  - intros k p. rewrite Hposts.
    intros [[<- <-]|[_ Hk]]%lookup_insert_Some; [done|]. by apply Hkeyed.
  - intros k1 k2 p1 p2. rewrite Hposts.
    intros [[<- <-]|[Hne1 Hk1]]%lookup_insert_Some
           [[<- <-]|[Hne2 Hk2]]%lookup_insert_Some Hsame; [done| | |].
    + symmetry. by apply (Hown k2 p2).
    + by apply (Hown k1 p1).
    + by apply (Huniq k1 k2 p1 p2).
Qed.

Lemma PUT_keeps_slugs_unique_witness :
  Integrity.keyed Samples.after_retitle.2 ∧
  Integrity.slugs_unique Samples.after_retitle.2.
Proof.
  apply (PUT_keeps_slugs_unique (Examples.request_env Samples.june "p2")
           "hello-world" Samples.retitle Examples.created_db
           Samples.after_retitle.1 Samples.after_retitle.2).
  - intros n. reflexivity.
  - exact created_db_keyed.
  - exact created_db_unique.
  - vm_compute. reflexivity.
Defined.

(** X19: a [PUT /api/posts/{slug}] removes no post and adds none, never
    changes the key, the author or the creation time of a post, and leaves
    a post whose slug is not the one of the request, and the tag rows of
    that post, as they are. *)
Theorem PUT_touches_one_post
    (env : Routes.Env) (slug_param : string) (req : Routes.Request)
    (db : Routes.Db) (resp : Routes.Response) (db' : Routes.Db)
    (k : string) (p : Posts.Post) :
  Integrity.keyed db →
  Routes.PUT env slug_param req db = Some (resp, db') →
  Routes.posts db !! k = Some p →
  (∃ p', Routes.posts db' !! k = Some p' ∧
         Posts.id p' = Posts.id p ∧
         Posts.author_id p' = Posts.author_id p ∧
         Posts.created_at p' = Posts.created_at p ∧
         (Posts.slug p ≠ slug_param →
          p' = p ∧
          ∀ t, Routes.pt_post_id t = k →
               t ∈ Routes.post_tags db' ↔ t ∈ Routes.post_tags db)) ∧
  (∀ k', Routes.posts db' !! k' = None ↔ Routes.posts db !! k' = None).
Proof.
  intros Hkeyed [[-> _]|H]%PUT_cases Hk.
  { split; [|done]. exists p. by repeat split. }
  destruct H as (decoded & existing & new_slug & _ & _ & Hfound & _ & _
                 & _ & _ & Hposts & Htags).
  apply find_by_slug_ok in Hfound as [[k0 Hk0]%rows_lookup Hslug].
  pose proof (Hkeyed _ _ Hk0) as Hid. rewrite Hid in *.
  split.
  - destruct (decide (k = k0)) as [->|Hne].
    + assert (p = existing) as -> by congruence.
      eexists. rewrite Hposts, lookup_insert_eq.
      split; [reflexivity|]. by repeat split.
    + exists p. rewrite Hposts, lookup_insert_ne by done.
      repeat split; try done.
      * rewrite Htags. destruct (Validation.pd_tags (Routes.req_body req)); [|done].
        rewrite elem_of_app, list_elem_of_filter.
        intros [[_ ?]|Hin]; [done|].
        unfold Routes.tag_rows in Hin.
        apply list_elem_of_fmap in Hin as (? & -> & _). simpl in *. congruence.
      * rewrite Htags. destruct (Validation.pd_tags (Routes.req_body req)); [|done].
        rewrite elem_of_app, list_elem_of_filter. intros Hin. left.
        split; [congruence | done].
  - intros k'. rewrite Hposts.
    destruct (decide (k' = k0)) as [->|Hne].
    + rewrite lookup_insert_eq, Hk0. done.
    + by rewrite lookup_insert_ne.
Qed.

Lemma PUT_touches_one_post_witness :
  (∃ p', Routes.posts Samples.after_retitle.2 !! "p1" = Some p' ∧
         Posts.id p' = Posts.id Examples.created_post ∧
         Posts.author_id p' = Posts.author_id Examples.created_post ∧
         Posts.created_at p' = Posts.created_at Examples.created_post ∧
         (Posts.slug Examples.created_post ≠ "hello-world" →
          p' = Examples.created_post ∧
          ∀ t, Routes.pt_post_id t = "p1" →
               t ∈ Routes.post_tags Samples.after_retitle.2
               ↔ t ∈ Routes.post_tags Examples.created_db)) ∧
  (∀ k', Routes.posts Samples.after_retitle.2 !! k' = None
         ↔ Routes.posts Examples.created_db !! k' = None).
Proof.
  apply (PUT_touches_one_post (Examples.request_env Samples.june "p2")
           "hello-world" Samples.retitle Examples.created_db
           Samples.after_retitle.1 Samples.after_retitle.2
           "p1" Examples.created_post).
  - exact created_db_keyed.
  - vm_compute. reflexivity.
  - vm_compute. reflexivity.
Defined.



(** X21: a post that [POST /api/posts] creates belongs to the caller, has
    the status [draft] or [published], bears a title that is not blank and
    a slug that is a candidate of that title, and carries a publication
    time exactly when it is published. *)
Theorem POST_created_post
    (env : Routes.Env) (req : Routes.Request) (db : Routes.Db)
    (resp : Routes.Response) (db' : Routes.Db) :
  Routes.POST env req db = Some (resp, db') →
  Routes.http_status resp = 201 →
  ∃ decoded p,
    Routes.authenticate env req = Some decoded ∧
    Routes.body resp = Routes.Success p "Post created successfully" ∧
    Routes.posts db' !! Routes.new_id env = Some p ∧
    Posts.id p = Routes.new_id env ∧
    Posts.author_id p = Auth.claim_id decoded ∧
    (Posts.status p = "draft" ∨ Posts.status p = "published") ∧
    Validators.has_visible (Posts.title p) = true ∧
    (∃ k, Posts.slug p = Slug.candidate (Slug.baseSlug (Posts.title p)) k) ∧
    (Posts.published_at p = Some (Routes.now env) ∧
     Posts.status p = "published" ∨
     Posts.published_at p = None ∧ Posts.status p = "draft").
Proof.
  intros [[_ ?]|H]%POST_cases Hstatus; [done|].
  destruct H as (decoded & s & Hauth & _ & Hvalid & Hslug & _ & _ & -> & ->).
  exists decoded, (Routes.new_post env decoded s (Routes.req_body req)).
  revert Hvalid. unfold Validation.validatePost.
  destruct (Validation.blank (Validation.pd_title _)) eqn:Htitle; [done|].
  destruct (_ <? _)%nat; [done|].
  destruct (Validation.blank (Validation.pd_content _)); [done|].
  destruct (_ && _); [done|].
  destruct (_ && _) eqn:Hst; [done|]. intros _.
  apply blank_visible in Htitle as (t & Ht & Hvis).
  assert (Posts.status (Routes.new_post env decoded s (Routes.req_body req))
            = "draft" ∧
          Posts.published_at
            (Routes.new_post env decoded s (Routes.req_body req)) = None ∨
          Posts.status (Routes.new_post env decoded s (Routes.req_body req))
            = "published" ∧
          Posts.published_at
            (Routes.new_post env decoded s (Routes.req_body req))
            = Some (Routes.now env)) as Hstatus'.
  { simpl.
    destruct (Validation.pd_status (Routes.req_body req)) as [st|] eqn:Est;
      [|by left].
    simpl in Hst.
    destruct (String.eqb st "") eqn:E;
      [apply string_eqb_true in E; subst st; by left|].
    simpl in Hst. apply negb_false_iff in Hst.
    rewrite orb_false_r, orb_true_iff, !string_eqb_true in Hst.
    destruct Hst as [-> | ->]; [by left | by right]. }
  repeat split; try done.
  - simpl. apply lookup_insert_eq.
  - destruct Hstatus' as [[? _]|[? _]]; auto.
  - simpl. by rewrite Ht.
  - simpl. unfold Slug.generateSlug in Hslug.
    apply (loop_result _ _ _ _ _ 0) in Hslug as (j & _ & -> & _).
    by exists j.
  - destruct Hstatus' as [[? ?]|[? ?]]; auto.
Qed.

Lemma POST_created_post_witness :
  ∃ decoded p,
    Routes.authenticate (Examples.request_env Samples.june "p2")
      Examples.create_published = Some decoded ∧
    Routes.body Samples.second_create.1
      = Routes.Success p "Post created successfully" ∧
    Routes.posts Samples.second_create.2
      !! Routes.new_id (Examples.request_env Samples.june "p2") = Some p ∧
    Posts.id p = Routes.new_id (Examples.request_env Samples.june "p2") ∧
    Posts.author_id p = Auth.claim_id decoded ∧
    (Posts.status p = "draft" ∨ Posts.status p = "published") ∧
    Validators.has_visible (Posts.title p) = true ∧
    (∃ k, Posts.slug p = Slug.candidate (Slug.baseSlug (Posts.title p)) k) ∧
    (Posts.published_at p
       = Some (Routes.now (Examples.request_env Samples.june "p2")) ∧
     Posts.status p = "published" ∨
     Posts.published_at p = None ∧ Posts.status p = "draft").
Proof.
  apply (POST_created_post (Examples.request_env Samples.june "p2")
           Examples.create_published Examples.created_db
           Samples.second_create.1 Samples.second_create.2).
  - vm_compute. reflexivity.
  - reflexivity.
Defined.



(** ** Accounts *)

Section Accounts.
Import Store Validation Auth.

(** With unique emails, a lookup that finds nobody means that nobody has
    the email. *)
Lemma find_by_email_none users e :
  NoDup (email <$> users) →
  data (find_by_email users e) = None →
  ∀ u, u ∈ users → email u ≠ e.
Proof.
  intros Hnd Hnone u Hu He.
  assert (length (filter (λ u, String.eqb (email u) e = true) users) ≤ 1)
    as Hlen.
  { apply (length_le_1_same_key email).
    - eapply sublist_NoDup; [done|]. apply fmap_sublist, sublist_filter.
    - intros x y [Hx _]%list_elem_of_filter [Hy _]%list_elem_of_filter.
      apply string_eqb_true in Hx, Hy. congruence. }
  assert (u ∈ filter (λ u, String.eqb (email u) e = true) users) as Hin.
  { apply list_elem_of_filter. split; [|done]. by apply string_eqb_true. }
  unfold find_by_email in Hnone.
  destruct (filter _ users) as [|x [|y l]]; simpl in *;
    [by apply elem_of_nil in Hin | done | lia].
Qed.

Lemma find_by_email_last users u :
  (∀ v, v ∈ users → email v ≠ email u) →
  find_by_email (users ++ [u]) (email u) = ok u.
Proof.
  intros Hfree. unfold find_by_email. apply single_ok.
  rewrite filter_app.
  assert (filter (λ v, String.eqb (email v) (email u) = true) users = [])
    as ->.
  { induction users as [|v users IH]; [done|].
    rewrite filter_cons_False.
    - apply IH. intros w Hw. apply Hfree. by apply list_elem_of_further.
    - intros Heq%string_eqb_true. apply (Hfree v); [|done].
      apply list_elem_of_here. }
  rewrite filter_cons_True by by apply string_eqb_true. done.
Qed.

(** What a registration that is let through leaves behind. *)
Lemma register_cases hash generateToken on_find on_insert new_id now users
    req resp users' :
  RegisterRoute.POST hash generateToken on_find on_insert new_id now users req
    = (resp, users') →
  (users' = users ∧ http_status resp ≠ 201) ∨
  validateRegistration req = Valid ∧
  (on_find = Errored ∨
   on_find = Answered ∧
   data (find_by_email users (default "" (reg_email req))) = None) ∧
  on_insert = Answered ∧
  resp = mkResponse 201
           (Success (withoutPassword (RegisterRoute.new_user hash new_id now req))
              (generateToken
                 (mkClaims new_id (default "" (reg_email req))
                    (Js.or_else (reg_role req) "reader")))
              "User registered successfully") ∧
  users' = users ++ [RegisterRoute.new_user hash new_id now req].
Proof.
  unfold RegisterRoute.POST.
  destruct (validateRegistration req); [|intros [= <- <-]; left; by split].
  destruct on_find; simpl.
  - destruct (data (find_by_email _ _)) eqn:Hfind;
      [intros [= <- <-]; left; by split|].
    destruct on_insert; intros [= <- <-];
      [right | left; by split | left; by split].
    repeat split; try done. right. by split.
  - destruct on_insert; intros [= <- <-];
      [right | left; by split | left; by split].
    repeat split; try done. by left.
  - intros [= <- <-]; left; by split.
Qed.

End Accounts.

(** X23: when the lookup of [POST /api/auth/register] is answered, no two
    users come to share an email; a response other than 201 leaves the
    users as they were. *)
Theorem register_keeps_emails_unique
    (hash : string → string) (generateToken : Auth.Claims → string)
    (on_insert : Store.Fault) (new_id now : string)
    (users users' : list Auth.User) (req : Validation.RegistrationData)
    (resp : Auth.Response) :
  NoDup (Auth.email <$> users) →
  RegisterRoute.POST hash generateToken Store.Answered on_insert new_id now
    users req = (resp, users') →
  NoDup (Auth.email <$> users') ∧
  (Auth.http_status resp ≠ 201 → users' = users).
Proof.
  intros Hnd [[-> ?]|H]%register_cases; [done|].
  destruct H as (_ & [?|[_ Hnone]] & _ & -> & ->); [done|].
  split; [|done].
  rewrite fmap_app. apply NoDup_app. split; [done|]. split.
  - intros e (u & -> & Hu)%list_elem_of_fmap Hin. simpl in Hin.
    apply list_elem_of_singleton in Hin.
    by apply (find_by_email_none users _ Hnd Hnone u Hu).
  - simpl. apply NoDup_singleton.
Qed.

Lemma register_keeps_emails_unique_witness :
  NoDup (Auth.email <$>
         [Examples.ann;
          RegisterRoute.new_user (λ p, "hash:" +:+ p) "bob" Examples.noon
            Examples.registration_of_bob]) ∧
  (Auth.http_status
     (RegisterRoute.POST (λ p, "hash:" +:+ p) Examples.token_of
        Store.Answered Store.Answered "bob" Examples.noon [Examples.ann]
        Examples.registration_of_bob).1 ≠ 201 →
   [Examples.ann;
    RegisterRoute.new_user (λ p, "hash:" +:+ p) "bob" Examples.noon
      Examples.registration_of_bob] = [Examples.ann]).
Proof.
  apply (register_keeps_emails_unique (λ p, "hash:" +:+ p) Examples.token_of
           Store.Answered "bob" Examples.noon [Examples.ann] _
           Examples.registration_of_bob _).
  - apply NoDup_singleton.
  - reflexivity.
Defined.

(** X24: a lookup that is answered with an error is taken for "no such
    user": the registration goes on, and when the store answers the
    insertion an email that is in use is given to a second user. *)
Theorem register_after_failed_lookup
    (hash : string → string) (generateToken : Auth.Claims → string)
    (new_id now : string) (users : list Auth.User)
    (req : Validation.RegistrationData) (u : Auth.User) :
  Validation.validateRegistration req = Validation.Valid →
  u ∈ users → Auth.email u = default "" (Validation.reg_email req) →
  ∃ resp users',
    RegisterRoute.POST hash generateToken Store.Errored Store.Answered
      new_id now users req = (resp, users') ∧
    Auth.http_status resp = 201 ∧
    ¬ NoDup (Auth.email <$> users').
Proof.
  intros Hvalid Hu He. unfold RegisterRoute.POST. rewrite Hvalid. simpl.
  eexists _, _. split; [reflexivity|]. split; [done|].
  rewrite fmap_app. intros [_ [Hdisj _]]%NoDup_app.
  apply (Hdisj (Auth.email u)).
  - by apply list_elem_of_fmap_2.
  - simpl. rewrite He. apply list_elem_of_here.
Qed.

Lemma register_after_failed_lookup_witness :
  ∃ resp users',
    RegisterRoute.POST (λ p, "hash:" +:+ p) Examples.token_of Store.Errored
      Store.Answered "ann2" Examples.noon [Examples.ann]
      (Validation.mkRegistration (Some "Ann") (Some "ann@example.org")
         (Some "secret1") None) = (resp, users') ∧
    Auth.http_status resp = 201 ∧
    ¬ NoDup (Auth.email <$> users').
Proof.
  apply (register_after_failed_lookup (λ p, "hash:" +:+ p) Examples.token_of
           "ann2" Examples.noon [Examples.ann]
           (Validation.mkRegistration (Some "Ann") (Some "ann@example.org")
              (Some "secret1") None) Examples.ann).
  - reflexivity.
  - apply list_elem_of_here.
  - reflexivity.
Defined.

(** X25: who has registered can log in.  When emails are unique, the
    lookups are answered and the password check accepts a password against
    its own hash, a login with the email and the password of a registration
    that was answered with 201 is answered with 200 and with the same user
    data. *)
Theorem register_then_login
    (hash : string → string) (compare : string → string → bool)
    (generateToken : Auth.Claims → string)
    (on_insert : Store.Fault) (new_id now : string)
    (users users' : list Auth.User) (req : Validation.RegistrationData)
    (resp : Auth.Response) :
  NoDup (Auth.email <$> users) →
  (∀ p, compare p (hash p) = true) →
  RegisterRoute.POST hash generateToken Store.Answered on_insert new_id now
    users req = (resp, users') →
  Auth.http_status resp = 201 →
  ∃ user token,
    Auth.body resp = Auth.Success user token "User registered successfully" ∧
    LoginRoute.POST compare generateToken Store.Answered users'
      (Validation.mkLogin (Validation.reg_email req)
                          (Validation.reg_password req))
    = Auth.mkResponse 200 (Auth.Success user token "Login successful").
Proof.
  intros Hnd Hcompare [[_ ?]|H]%register_cases Hstatus; [done|].
  destruct H as (Hvalid & [?|[_ Hnone]] & _ & -> & ->); [done|].
  eexists _, _. split; [reflexivity|].
  unfold LoginRoute.POST.
  rewrite (valid_registration_logs_in req Hvalid). simpl.
  change (default "" (Validation.reg_email req))
    with (Auth.email (RegisterRoute.new_user hash new_id now req)).
  rewrite find_by_email_last.
  - simpl. by rewrite Hcompare.
  - intros v Hv. by apply (find_by_email_none users _ Hnd Hnone v Hv).
Qed.

Lemma register_then_login_witness :
  ∃ user token,
    Auth.body
      (RegisterRoute.POST (λ p, "hash:" +:+ p) Examples.token_of
         Store.Answered Store.Answered "bob" Examples.noon [Examples.ann]
         Examples.registration_of_bob).1
    = Auth.Success user token "User registered successfully" ∧
    LoginRoute.POST (λ p h, String.eqb h ("hash:" +:+ p)) Examples.token_of
      Store.Answered
      (RegisterRoute.POST (λ p, "hash:" +:+ p) Examples.token_of
         Store.Answered Store.Answered "bob" Examples.noon [Examples.ann]
         Examples.registration_of_bob).2
      (Validation.mkLogin
         (Validation.reg_email Examples.registration_of_bob)
         (Validation.reg_password Examples.registration_of_bob))
    = Auth.mkResponse 200 (Auth.Success user token "Login successful").
Proof.
  apply (register_then_login (λ p, "hash:" +:+ p)
           (λ p h, String.eqb h ("hash:" +:+ p)) Examples.token_of
           Store.Answered "bob" Examples.noon [Examples.ann] _
           Examples.registration_of_bob _).
  - apply NoDup_singleton.
  - intros p. apply String.eqb_refl.
  - reflexivity.
  - reflexivity.
Defined.

(** X26: [POST /api/auth/login] answers 200 exactly when the body passes
    [validateLogin], the lookup is answered and finds one user with the
    email, and the password check accepts the password against the stored
    hash of that user. *)
Theorem login_succeeds_iff
    (compare : string → string → bool) (generateToken : Auth.Claims → string)
    (on_find : Store.Fault) (users : list Auth.User)
    (req : Validation.LoginData) :
  Auth.http_status (LoginRoute.POST compare generateToken on_find users req)
    = 200 ↔
  Validation.validateLogin req = Validation.Valid ∧
  on_find = Store.Answered ∧
  ∃ u, Auth.find_by_email users (default "" (Validation.login_email req))
         = Store.ok u ∧
       compare (default "" (Validation.login_password req)) (Auth.password u)
         = true.
Proof.
  unfold LoginRoute.POST.
  destruct (Validation.validateLogin req);
    [|split; [done | by intros [? _]]].
  destruct on_find; simpl;
    [|split; [done | by intros (_ & ? & _)]..].
  unfold Auth.find_by_email.
  destruct (filter _ users) as [|u [|v l]]; simpl;
    [split; [done | by intros (_ & _ & ? & ? & _)]
    | |split; [done | by intros (_ & _ & ? & ? & _)]].
  destruct (compare _ (Auth.password u)) eqn:Hc; simpl.
  - split; [|done]. intros _. repeat split. by exists u.
  - split; [done|]. intros (_ & _ & u' & [= <-] & Hc'). congruence.
Qed.

(** ** The shape of a slug *)

Section Shape.
Import Slug SlugShape.
Local Abbreviation string_forall := Posts.string_forall.

Lemma slug_char_not_hyphen c : Js.is_slug_char c = true → is_hyphen c = false.
Proof.
  unfold Js.is_slug_char, Js.between, is_hyphen.
  destruct (Js.code c =? 45)%N eqn:E; [|done].
  apply N.eqb_eq in E. by rewrite E.
Qed.

Lemma hyphen_char c : is_hyphen c = true → c = "-"%char.
Proof.
  unfold is_hyphen, Js.code. intros E%N.eqb_eq.
  rewrite <- (ascii_N_embedding c), E. reflexivity.
Qed.

Lemma replace_runs_chars b s :
  string_forall slug_or_hyphen (replace_runs b s) = true.
Proof.
  revert b. induction s as [|c s IH]; intros b; [done|]. simpl.
  destruct (Js.is_slug_char c) eqn:Hc.
  - simpl. unfold slug_or_hyphen at 1. by rewrite Hc, IH.
  - destruct b; [apply IH|]. simpl. apply IH.
Qed.

Lemma replace_runs_in_run s : starts_with_hyphen (replace_runs true s) = false.
Proof.
  induction s as [|c s IH]; [done|]. simpl.
  destruct (Js.is_slug_char c) eqn:Hc; [|done].
  simpl. by apply slug_char_not_hyphen.
Qed.

Lemma replace_runs_single b s : has_double_hyphen (replace_runs b s) = false.
Proof.
  revert b. induction s as [|c s IH]; intros b; [done|]. simpl.
  destruct (Js.is_slug_char c) eqn:Hc.
  - simpl. by rewrite (slug_char_not_hyphen c Hc), IH.
  - destruct b; [apply IH|]. simpl. by rewrite replace_runs_in_run, IH.
Qed.

Lemma strip_leading_start s : starts_with_hyphen (strip_leading s) = false.
Proof.
  induction s as [|c s IH]; [done|]. simpl.
  destruct (is_hyphen c) eqn:Hc; [done|]. simpl. done.
Qed.

Lemma strip_leading_chars P s :
  string_forall P s = true → string_forall P (strip_leading s) = true.
Proof.
  induction s as [|c s IH]; [done|]. simpl. intros H.
  destruct (is_hyphen c); [|done].
  apply IH. by apply andb_true_iff in H as [_ ?].
Qed.

Lemma strip_leading_single s :
  has_double_hyphen s = false → has_double_hyphen (strip_leading s) = false.
Proof.
  induction s as [|c s IH]; [done|]. simpl. intros H.
  destruct (is_hyphen c) eqn:Hc; [|simpl in *; by rewrite Hc].
  apply IH. by apply orb_false_iff in H as [_ ?].
Qed.

(** [strip_trailing] keeps a first character that it does not remove. *)
Lemma strip_trailing_head s c r :
  strip_trailing s = String c r → ∃ r', s = String c r'.
Proof.
  destruct s as [|d s]; [done|]. simpl.
  destruct (strip_trailing s); [destruct (is_hyphen d)|];
    intros [= <- <-]; eauto.
Qed.

Lemma strip_trailing_start s :
  starts_with_hyphen s = false → starts_with_hyphen (strip_trailing s) = false.
Proof.
  destruct (strip_trailing s) as [|c r] eqn:E; [done|].
  apply strip_trailing_head in E as [r' ->]. done.
Qed.

Lemma strip_trailing_end s : ends_with_hyphen (strip_trailing s) = false.
Proof.
  induction s as [|c s IH]; [done|]. simpl.
  destruct (strip_trailing s) as [|d r] eqn:E.
  - destruct (is_hyphen c) eqn:Hc; [done|]. simpl. done.
  - done.
Qed.

Lemma strip_trailing_chars P s :
  string_forall P s = true → string_forall P (strip_trailing s) = true.
Proof.
  induction s as [|c s IH]; [done|]. simpl.
  intros [Hc Hs]%andb_true_iff. specialize (IH Hs).
  destruct (strip_trailing s) as [|d r].
  - destruct (is_hyphen c); [done|]. simpl. by rewrite Hc.
  - cbn [Posts.string_forall]. cbn [Posts.string_forall] in IH.
    by rewrite Hc, IH.
Qed.

Lemma strip_trailing_single s :
  has_double_hyphen s = false → has_double_hyphen (strip_trailing s) = false.
Proof.
  induction s as [|c s IH]; [done|]. simpl.
  intros [Hc Hs]%orb_false_iff. specialize (IH Hs).
  destruct (strip_trailing s) as [|d r] eqn:E.
  - destruct (is_hyphen c); [done|]. simpl. by rewrite andb_false_r.
  - cbn [has_double_hyphen]. cbn [has_double_hyphen] in IH. rewrite IH.
    apply strip_trailing_head in E as [r' ->]. simpl in Hc |- *.
    by rewrite Hc.
Qed.

Lemma baseSlug_is_clean title : clean (baseSlug title) = true.
Proof.
  unfold clean, baseSlug.
  rewrite strip_trailing_chars
    by apply strip_leading_chars, replace_runs_chars.
  rewrite strip_trailing_start by apply strip_leading_start.
  rewrite strip_trailing_end.
  rewrite strip_trailing_single
    by apply strip_leading_single, replace_runs_single.
  reflexivity.
Qed.

(** A clean string is its own slug. *)
Lemma lower_char_slug c : slug_or_hyphen c = true → Js.lower_char c = c.
Proof.
  unfold slug_or_hyphen, Js.is_slug_char, is_hyphen, Js.lower_char, Js.between.
  intros H.
  destruct ((65 <=? Js.code c)%N && (Js.code c <=? 90)%N) eqn:E1.
  { exfalso. revert H E1.
    rewrite !orb_true_iff, !andb_true_iff, !N.leb_le, N.eqb_eq. lia. }
  destruct (((192 <=? Js.code c)%N && (Js.code c <=? 222)%N)
            && negb (Js.code c =? 215)%N) eqn:E2; [|done].
  exfalso. revert H E2.
  rewrite !orb_true_iff, !andb_true_iff, !N.leb_le, N.eqb_eq. lia.
Qed.

Lemma toLowerCase_clean s :
  string_forall slug_or_hyphen s = true → Js.toLowerCase s = s.
Proof.
  induction s as [|c s IH]; [done|]. simpl.
  intros [Hc Hs]%andb_true_iff. by rewrite lower_char_slug, IH.
Qed.

Lemma replace_runs_clean b s :
  string_forall slug_or_hyphen s = true →
  has_double_hyphen s = false →
  (b = true → starts_with_hyphen s = false) →
  replace_runs b s = s.
Proof.
  revert b. induction s as [|c s IH]; intros b; [done|]. simpl.
  intros [Hc Hs]%andb_true_iff [Hcc Hd]%orb_false_iff Hb.
  destruct (Js.is_slug_char c) eqn:Hslug.
  - rewrite IH; done.
  - unfold slug_or_hyphen in Hc. rewrite Hslug in Hc. simpl in Hc.
    destruct b; [rewrite Hb in Hc; done|].
    rewrite Hc in Hcc. simpl in Hcc.
    rewrite (hyphen_char c Hc). by rewrite IH.
Qed.

Lemma strip_leading_clean s :
  starts_with_hyphen s = false → strip_leading s = s.
Proof. destruct s as [|c s]; [done|]. simpl. by intros ->. Qed.

Lemma strip_trailing_clean s :
  ends_with_hyphen s = false → strip_trailing s = s.
Proof.
  induction s as [|c s IH]; [done|].
  destruct s as [|d s].
  - simpl. by intros ->.
  - intros H. change (ends_with_hyphen (String d s) = false) in H.
    change (strip_trailing (String c (String d s)))
      with (match strip_trailing (String d s) with
            | "" => if is_hyphen c then "" else String c ""
            | r => String c r
            end).
    by rewrite IH.
Qed.

Lemma clean_fixed s : clean s = true → baseSlug s = s.
Proof.
  unfold clean, baseSlug.
  intros [[[Hc Hs%negb_true_iff]%andb_true_iff He%negb_true_iff]%andb_true_iff
          Hd%negb_true_iff]%andb_true_iff.
  rewrite toLowerCase_clean by done.
  rewrite replace_runs_clean by done.
  rewrite strip_leading_clean by done.
  by apply strip_trailing_clean.
Qed.

(** When the slug is empty. *)
Lemma strip_leading_empty s :
  strip_leading s = "" ↔ string_forall is_hyphen s = true.
Proof.
  induction s as [|c s IH]; [done|]. simpl.
  destruct (is_hyphen c); simpl; [done|]. split; done.
Qed.

Lemma strip_trailing_empty s :
  strip_trailing s = "" ↔ string_forall is_hyphen s = true.
Proof.
  induction s as [|c s IH]; [done|]. simpl.
  destruct (strip_trailing s) as [|d r].
  - destruct (is_hyphen c); simpl; [apply IH|]. split; done.
  - split; [done|]. intros [_ Hs]%andb_true_iff. by apply IH in Hs.
Qed.

Lemma strip_leading_hyphens s :
  string_forall is_hyphen (strip_leading s) = string_forall is_hyphen s.
Proof.
  induction s as [|c s IH]; [done|]. simpl.
  destruct (is_hyphen c) eqn:Hc; [done|]. simpl. by rewrite Hc.
Qed.

Lemma replace_runs_hyphens b s :
  string_forall is_hyphen (replace_runs b s)
  = string_forall (λ c, negb (Js.is_slug_char c)) s.
Proof.
  revert b. induction s as [|c s IH]; intros b; [done|]. simpl.
  destruct (Js.is_slug_char c) eqn:Hc; simpl.
  - by rewrite (slug_char_not_hyphen c Hc).
  - destruct b; [apply IH|]. simpl. apply IH.
Qed.

Lemma toLowerCase_forall P s :
  string_forall P (Js.toLowerCase s)
  = string_forall (λ c, P (Js.lower_char c)) s.
Proof. induction s as [|c s IH]; [done|]. simpl. by rewrite IH. Qed.

End Shape.

(** X27: whatever the title, the slug that [generateSlug] starts from is
    made of [a-z], [0-9] and single hyphens and has no hyphen at either
    end; and these are exactly the strings that are their own slug, so
    making the slug of a slug changes nothing. *)
Theorem baseSlug_clean (title s : string) :
  SlugShape.clean (Slug.baseSlug title) = true ∧
  (Slug.baseSlug s = s ↔ SlugShape.clean s = true) ∧
  Slug.baseSlug (Slug.baseSlug title) = Slug.baseSlug title.
Proof.
  split; [apply baseSlug_is_clean|]. split.
  - split; [intros <-; apply baseSlug_is_clean | apply clean_fixed].
  - apply clean_fixed, baseSlug_is_clean.
Qed.

(** X28: the slug that [generateSlug] starts from is empty exactly when
    the title holds no letter of [a-z] and no digit once it is in lower
    case. *)
Theorem baseSlug_empty (title : string) :
  Slug.baseSlug title = "" ↔ SlugShape.no_slug_char title = true.
Proof.
  unfold Slug.baseSlug, SlugShape.no_slug_char.
  rewrite strip_trailing_empty, strip_leading_hyphens, replace_runs_hyphens.
  by rewrite toLowerCase_forall.
Qed.
